(** * ForecastHub: the PatchTST data-preparation script

    A shallow embedding of [PatchTST/PatchTST.py]: the outlier filter, the
    forward/backward fill, the calendar channels, the robust scaler, the lag
    and rolling channels, the chronological split and the final mean squared
    error, in the order in which the script runs them.

    Conventions of the model.
    - A pandas float column is a [list (option Q)]: [None] is NaN, and the
      arithmetic on present values is exact (the rounding of binary64 and the
      later narrowing to float32 are left out of the table stages).
    - The split sizes [int(len(dataset) * 0.7)] and [int(len(dataset) * 0.2)]
      are computed in binary64, with the rounding of the Standard Library's
      [SpecFloat], because the rounding is visible in the result.
    - [np.sqrt] is a parameter [sqrtQ] of the stages that need it.
    - The timestamp column is the first column of the frame and every other
      column is numeric, as in the ETTh1 table the script reads. *)

From Stdlib Require Import String ZArith QArith Qround Qpower List Bool Lia Lqa.
From Stdlib Require Import Floats.SpecFloat.
Import ListNotations.

Local Open Scope Z_scope.

(* ------------------------------------------------------------------ *)
(** ** Binary64 arithmetic of the split sizes *)

Module Float64.

Definition prec : Z := 53.
Definition emax : Z := 1024.

(** [float(n)] for a Python int: correctly rounded, [OverflowError]
    (here [None]) when the result would not be finite. *)
Definition of_int (n : Z) : option spec_float :=
  match binary_normalize prec emax n 0 false with
  | S754_infinity _ => None
  | f => Some f
  end.

Definition mul : spec_float -> spec_float -> spec_float := SFmul prec emax.

(** [int(x)] for a Python float: truncation toward zero, an error (here
    [None]) on infinities and NaN. *)
Definition to_int (x : spec_float) : option Z :=
  match x with
  | S754_zero _ => Some 0
  | S754_finite s m e =>
      let a := if 0 <=? e then Zpos m * 2 ^ e else Zpos m / 2 ^ (- e) in
      Some (if s then - a else a)
  | S754_infinity _ | S754_nan => None
  end.

(** The literals [0.7] and [0.2]: the doubles nearest to 7/10 and 2/10,
    [0x1.6666666666666p-1] and [0x1.999999999999ap-3]. *)
Definition lit_0_7 : spec_float := S754_finite false 6305039478318694 (-53).
Definition lit_0_2 : spec_float := S754_finite false 7205759403792794 (-55).

(** The value of a finite double as a rational. *)
Definition F2Q (m : positive) (e : Z) : Q := inject_Z (Zpos m) * (2 ^ e)%Q.

End Float64.

(** [int(n * c)] for a Python int [n] and a float [c]. *)
Definition int_mul (n : Z) (c : spec_float) : option Z :=
  match Float64.of_int n with
  | Some x => Float64.to_int (Float64.mul x c)
  | None => None
  end.

(** Lines 90-92. *)
Definition num_train (len : Z) : option Z := int_mul len Float64.lit_0_7.
Definition num_test (len : Z) : option Z := int_mul len Float64.lit_0_2.
Definition num_valid (len n_train n_test : Z) : Z := len - n_train - n_test.

(* ------------------------------------------------------------------ *)
(** ** Frames *)

(** A float cell, where [None] is NaN, and a column of them. *)
Abbreviation cell := (option Q).
Abbreviation column := (list (option Q)).

(** The fields of a parsed timestamp that the script reads. *)
Record Timestamp : Type := mkTimestamp
  { ts_year : Z; ts_month : Z; ts_day : Z; ts_hour : Z }.

(** The frame [dataset]: the timestamp column ([None] is NaT) and the
    columns [dataset.columns[index_start:]], in column order. *)
Record DataFrame : Type := mkDataFrame
  { dates : list (option Timestamp);
    columns : list (string * column) }.

Definition len (df : DataFrame) : Z := Z.of_nat (length (dates df)).
Definition names (cols : list (string * column)) : list string := map fst cols.

Fixpoint get_column (name : string) (cols : list (string * column)) : option column :=
  match cols with
  | [] => None
  | (n, c) :: rest => if String.eqb n name then Some c else get_column name rest
  end.

(** [dataset[name]] for a name that is a column of the frame. *)
Definition col_values (name : string) (cols : list (string * column)) : column :=
  match get_column name cols with
  | Some c => c
  | None => []
  end.

(** [dataset[name] = c]: overwrite in place, or append a new last column. *)
Fixpoint set_column (name : string) (c : column) (cols : list (string * column))
  : list (string * column) :=
  match cols with
  | [] => [(name, c)]
  | (n, c') :: rest =>
      if String.eqb n name then (n, c) :: rest
      else (n, c') :: set_column name c rest
  end.

(** Boolean-mask row selection [dataset[mask]]. *)
Fixpoint select {A : Type} (mask : list bool) (l : list A) : list A :=
  match mask, l with
  | b :: mask', x :: l' => if b then x :: select mask' l' else select mask' l'
  | _, _ => []
  end.

(* ------------------------------------------------------------------ *)
(** ** NaN-aware arithmetic and order statistics *)

Definition cell_map2 (f : Q -> Q -> Q) (a b : cell) : cell :=
  match a, b with
  | Some x, Some y => Some (f x y)
  | _, _ => None
  end.

Definition Qltb (x y : Q) : bool := negb (Qle_bool y x).

(** [a < b] on floats: false as soon as one side is NaN. *)
Definition cell_ltb (a b : cell) : bool :=
  match a, b with
  | Some x, Some y => Qltb x y
  | _, _ => false
  end.

Fixpoint present (c : column) : list Q :=
  match c with
  | [] => []
  | Some x :: rest => x :: present rest
  | None :: rest => present rest
  end.

Fixpoint insert_sorted (x : Q) (l : list Q) : list Q :=
  match l with
  | [] => [x]
  | y :: rest => if Qle_bool x y then x :: l else y :: insert_sorted x rest
  end.

Definition sort (l : list Q) : list Q := fold_right insert_sorted [] l.

(** The [q]-quantile with linear interpolation, NaN skipped, as
    [Series.quantile] and [np.nanpercentile] compute it; NaN when the column
    has no value. *)
Definition quantile (q : Q) (c : column) : cell :=
  match sort (present c) with
  | [] => None
  | a0 :: rest =>
      let s := a0 :: rest in
      let pos := (q * inject_Z (Z.of_nat (length s - 1)))%Q in
      let lo := Z.to_nat (Qfloor pos) in
      let frac := (pos - inject_Z (Qfloor pos))%Q in
      let a := nth lo s a0 in
      let b := nth (S lo) s a in
      Some (a + (b - a) * frac)%Q
  end.

(* ------------------------------------------------------------------ *)
(** ** Lines 50-57: the outlier filter *)

Definition Q1 (c : column) : cell := quantile (1 # 4) c.
Definition Q3 (c : column) : cell := quantile (3 # 4) c.
Definition IQR (c : column) : cell := cell_map2 Qminus (Q3 c) (Q1 c).

Definition lower_bound (c : column) : cell :=
  cell_map2 Qminus (Q1 c) (cell_map2 Qmult (Some (3 # 2)) (IQR c)).
Definition upper_bound (c : column) : cell :=
  cell_map2 Qplus (Q3 c) (cell_map2 Qmult (Some (3 # 2)) (IQR c)).

(** One entry of [(dataset < lower) | (dataset > upper)]. *)
Definition is_outlier (lo hi v : cell) : bool := cell_ltb v lo || cell_ltb hi v.

Definition outlier_flags (c : column) : list bool :=
  map (is_outlier (lower_bound c) (upper_bound c)) c.

(** [.any(axis=1)] over boolean columns of [n] rows. *)
Definition any_axis1 (n : nat) (flags : list (list bool)) : list bool :=
  map (fun i => existsb (fun f => nth i f false) flags) (seq 0 n).

Definition keep_mask (df : DataFrame) : list bool :=
  map negb (any_axis1 (length (dates df)) (map (fun nc => outlier_flags (snd nc)) (columns df))).

Definition remove_outliers (df : DataFrame) : DataFrame :=
  let keep := keep_mask df in
  {| dates := select keep (dates df);
     columns := map (fun nc => (fst nc, select keep (snd nc))) (columns df) |}.

(* ------------------------------------------------------------------ *)
(** ** Lines 60-61 and 86-87: forward fill, then backward fill *)

Fixpoint ffill_from {A : Type} (last : option A) (c : list (option A)) : list (option A) :=
  match c with
  | [] => []
  | Some x :: rest => Some x :: ffill_from (Some x) rest
  | None :: rest => last :: ffill_from last rest
  end.

Definition ffill {A : Type} (c : list (option A)) : list (option A) := ffill_from None c.

Definition first_cell {A : Type} (c : list (option A)) : option A :=
  match c with
  | [] => None
  | x :: _ => x
  end.

Fixpoint bfill {A : Type} (c : list (option A)) : list (option A) :=
  match c with
  | [] => []
  | Some x :: rest => Some x :: bfill rest
  | None :: rest => first_cell (bfill rest) :: bfill rest
  end.

Definition fill {A : Type} (c : list (option A)) : list (option A) := bfill (ffill c).

Definition fillna (df : DataFrame) : DataFrame :=
  {| dates := fill (dates df);
     columns := map (fun nc => (fst nc, fill (snd nc))) (columns df) |}.

(* ------------------------------------------------------------------ *)
(** ** Lines 63-67: the calendar channels *)

(** Days since 1970-01-01 of a proleptic Gregorian date. *)
Definition days_from_civil (y m d : Z) : Z :=
  let y' := if m <=? 2 then y - 1 else y in
  let era := y' / 400 in
  let yoe := y' - era * 400 in
  let doy := (153 * (if 2 <? m then m - 3 else m + 9) + 2) / 5 + d - 1 in
  let doe := yoe * 365 + yoe / 4 - yoe / 100 + doy in
  era * 146097 + doe - 719468.

(** [.dt.dayofweek]: Monday is 0. *)
Definition dayofweek (t : Timestamp) : Z :=
  (days_from_civil (ts_year t) (ts_month t) (ts_day t) + 3) mod 7.

Definition dt (f : Timestamp -> Z) (d : list (option Timestamp)) : column :=
  map (option_map (fun t => inject_Z (f t))) d.

Definition add_time_features (df : DataFrame) : DataFrame :=
  let d := dates df in
  {| dates := d;
     columns :=
       set_column "hour" (dt ts_hour d)
         (set_column "month" (dt ts_month d)
            (set_column "day_of_month" (dt ts_day d)
               (set_column "day_of_week" (dt dayofweek d) (columns df)))) |}.

(* ------------------------------------------------------------------ *)
(** ** Lines 69-77: the robust scaler *)

Module RobustScaler.

(** The fitted state: one (center, scale) pair per fitted column. *)
Abbreviation ScalerState := (list (option Q * option Q)).

(** A scale below ten machine epsilons is replaced by one. *)
Definition handle_zeros_in_scale (s : cell) : cell :=
  match s with
  | Some x => if Qltb x (10 * (1 # 2 ^ 52)) then Some 1%Q else Some x
  | None => None
  end.

Definition fit_column (c : column) : cell * cell :=
  (quantile (1 # 2) c,
   handle_zeros_in_scale (cell_map2 Qminus (quantile (3 # 4) c) (quantile (1 # 4) c))).

Definition fit (X : list column) : ScalerState := map fit_column X.

Definition transform_column (st : cell * cell) (c : column) : column :=
  map (fun v => cell_map2 Qdiv (cell_map2 Qminus v (fst st)) (snd st)) c.

Fixpoint transform (st : ScalerState) (X : list column) : list column :=
  match st, X with
  | s :: st', c :: X' => transform_column s c :: transform st' X'
  | _, _ => []
  end.

Definition fit_transform (X : list column) : list column := transform (fit X) X.

(** What [fit_transform] does to one column. *)
Definition scale_column (c : column) : column := transform_column (fit_column c) c.

End RobustScaler.



Definition robust_scale (df : DataFrame) : DataFrame :=
  {| dates := dates df;
     columns := combine (names (columns df))
                        (RobustScaler.fit_transform (map snd (columns df))) |}.

(* ------------------------------------------------------------------ *)
(** ** Lines 79-83: lag and rolling channels *)

Definition shift1 (c : column) : column :=
  match c with
  | [] => []
  | _ :: _ => None :: removelast c
  end.

Fixpoint all_present (c : column) : option (list Q) :=
  match c with
  | [] => Some []
  | Some x :: rest => option_map (cons x) (all_present rest)
  | None :: rest => None
  end.

Definition Qsum (l : list Q) : Q := fold_right Qplus 0%Q l.

Definition mean (l : list Q) : Q := (Qsum l / inject_Z (Z.of_nat (length l)))%Q.

(** The sample variance (one delta degree of freedom). *)
Definition var (l : list Q) : Q :=
  (Qsum (map (fun x => (x - mean l) * (x - mean l)) l)
   / inject_Z (Z.of_nat (length l) - 1))%Q.

(** [c.rolling(window=w)]: the statistic of the [w] rows ending at each row,
    NaN while fewer than [w] rows are available or one of them is NaN. *)
Definition rolling (w : nat) (stat : list Q -> Q) (c : column) : column :=
  map (fun i =>
         if (i + 1 <? w)%nat then None
         else option_map stat (all_present (firstn w (skipn (i + 1 - w) c))))
      (seq 0 (length c)).

Definition window : nat := 5.

Definition lag1_name (col : string) : string := (col ++ "_lag1")%string.
Definition rolling_mean_name (col : string) : string := (col ++ "_rolling_mean")%string.
Definition rolling_std_name (col : string) : string := (col ++ "_rolling_std")%string.

Definition derived_names (col : string) : list string :=
  [lag1_name col; rolling_mean_name col; rolling_std_name col].

(** A square root on rationals to run the model with: the floor of the root
    to 52 fractional bits. *)
Definition sqrt_fixed (q : Q) : Q :=
  Z.sqrt (Qnum q * 2 ^ 104 / Zpos (Qden q)) # 2 ^ 52.

Section Pipeline.

Variable sqrtQ : Q -> Q.

Definition rolling_mean (c : column) : column := rolling window mean c.
Definition rolling_std (c : column) : column := rolling window (fun l => sqrtQ (var l)) c.

(** The three channels derived from a column. *)
Definition derived (nc : string * column) : list (string * column) :=
  [(lag1_name (fst nc), shift1 (snd nc));
   (rolling_mean_name (fst nc), rolling_mean (snd nc));
   (rolling_std_name (fst nc), rolling_std (snd nc))].

(** One pass of the loop body, lines 81-83. *)
Definition add_features (cols : list (string * column)) (col : string)
  : list (string * column) :=
  let cols1 := set_column (lag1_name col) (shift1 (col_values col cols)) cols in
  let cols2 := set_column (rolling_mean_name col) (rolling_mean (col_values col cols1)) cols1 in
  set_column (rolling_std_name col) (rolling_std (col_values col cols2)) cols2.

(** The columns the loop of line 80 iterates over: those the frame has
    when the loop starts. *)
Definition lag_sources (df : DataFrame) : list string := names (columns df).

Definition add_lag_rolling (df : DataFrame) : DataFrame :=
  {| dates := dates df;
     columns := fold_left add_features (lag_sources df) (columns df) |}.

(** The frame at line 57, at line 61, at line 67, at line 77 and at line 87. *)
Definition filtered (raw : DataFrame) : DataFrame := fillna (remove_outliers raw).
Definition augmented (raw : DataFrame) : DataFrame := add_time_features (filtered raw).
Definition scaled (raw : DataFrame) : DataFrame := robust_scale (augmented raw).
Definition preprocess (raw : DataFrame) : DataFrame := fillna (add_lag_rolling (scaled raw)).

End Pipeline.

(* ------------------------------------------------------------------ *)
(** ** Lines 89-97: the chronological split *)

(** A slice bound, as Python normalises it for a sequence of [n] items. *)
Definition slice_index (n i : Z) : Z :=
  if i <? 0 then Z.max 0 (i + n) else Z.min i n.

(** [l[start:stop]]. *)
Definition slice {A : Type} (start stop : option Z) (l : list A) : list A :=
  let n := Z.of_nat (length l) in
  let a := match start with Some i => slice_index n i | None => 0 end in
  let b := match stop with Some i => slice_index n i | None => n end in
  firstn (Z.to_nat (b - a)) (skipn (Z.to_nat a) l).

(** [dataset.iloc[start:stop].reset_index(drop=True)]. *)
Definition iloc (start stop : option Z) (df : DataFrame) : DataFrame :=
  {| dates := slice start stop (dates df);
     columns := map (fun nc => (fst nc, slice start stop (snd nc))) (columns df) |}.

Record Split : Type := mkSplit
  { train_dataset : DataFrame;
    valid_dataset : DataFrame;
    test_dataset : DataFrame }.

(** The three index ranges, as (start, stop) pairs. *)
Definition split_ranges (n : Z) : option ((Z * Z) * (Z * Z) * (Z * Z)) :=
  match num_train n, num_test n with
  | Some n_train, Some n_test =>
      let n_valid := num_valid n n_train n_test in
      Some ((0, n_train), (n_train, n_train + n_valid), (n_train + n_valid, n))
  | _, _ => None
  end.

Definition split (df : DataFrame) : option Split :=
  match num_train (len df), num_test (len df) with
  | Some n_train, Some n_test =>
      let n_valid := num_valid (len df) n_train n_test in
      Some {| train_dataset := iloc None (Some n_train) df;
              valid_dataset := iloc (Some n_train) (Some (n_train + n_valid)) df;
              test_dataset := iloc (Some (n_train + n_valid)) None df |}
  | _, _ => None
  end.

(* ------------------------------------------------------------------ *)
(** ** Lines 99-122: the windowed datasets *)

(** One sample: the context rows and the target rows that follow them. *)
Record WindowSample : Type := mkWindowSample
  { context : DataFrame;
    target : DataFrame }.

(** Modelled from the spec: [models/ForecastDFDataset.py], the class the
    script instantiates, is not among the sources.  Section 4.5 of the
    specification: a stride-1 window over the row index
    [i = 0 .. segment_length - context_length - prediction_length], context
    rows [[i, i + context_length)] and target rows
    [[i + context_length, i + context_length + prediction_length)]. *)
Definition window_at (context_length prediction_length : Z) (segment : DataFrame) (i : Z)
  : WindowSample :=
  {| context := iloc (Some i) (Some (i + context_length)) segment;
     target := iloc (Some (i + context_length))
                    (Some (i + context_length + prediction_length)) segment |}.

(** Modelled from the spec: the start indices [0 .. last], none when [last]
    is negative. *)
Definition window_starts (last : Z) : list Z :=
  map Z.of_nat (seq 0 (Z.to_nat (last + 1))).

(** Modelled from the spec: the WindowedDataset of a segment. *)
Definition ForecastDFDataset (context_length prediction_length : Z) (segment : DataFrame)
  : list WindowSample :=
  map (window_at context_length prediction_length segment)
      (window_starts (len segment - context_length - prediction_length)).

(* ------------------------------------------------------------------ *)
(** ** Lines 197-215: the evaluation *)








(* ------------------------------------------------------------------ *)
(** ** Well-formed frames *)

Fixpoint distinct (l : list string) : bool :=
  match l with
  | [] => true
  | x :: rest => negb (existsb (String.eqb x) rest) && distinct rest
  end.

Definition calendar_names : list string :=
  ["day_of_week"; "day_of_month"; "month"; "hour"]%string.

(** The column names are pairwise distinct, none is a calendar channel, and
    no derived channel overwrites a column: every assignment of lines 64-67
    and 81-83 appends a new column. *)
Definition fresh_names (df : DataFrame) : bool :=
  let base := (names (columns df) ++ calendar_names)%list in
  distinct (base ++ flat_map derived_names base).

(** Every column has one cell per row. *)
Definition rectangular (df : DataFrame) : bool :=
  forallb (fun nc => (length (snd nc) =? length (dates df))%nat) (columns df).

Definition has_value {A : Type} (c : list (option A)) : bool :=
  existsb (fun v => match v with Some _ => true | None => false end) c.

Definition no_missing {A : Type} (c : list (option A)) : bool :=
  forallb (fun v => match v with Some _ => true | None => false end) c.

(** No NaN and no NaT in the whole frame. *)
Definition complete (df : DataFrame) : bool :=
  no_missing (dates df) && forallb (fun nc => no_missing (snd nc)) (columns df).

(** Every column, the timestamp column too, has a value somewhere. *)
Definition every_column_has_value (df : DataFrame) : bool :=
  has_value (dates df) && forallb (fun nc => has_value (snd nc)) (columns df).

(** A half-open index range [[start, stop)]. *)
Definition in_range (r : Z * Z) (i : Z) : Prop := fst r <= i < snd r.



(* ------------------------------------------------------------------ *)
(** ** Small frames to run the model on *)

(** Hourly timestamps of 2016-07-01, the first day of ETTh1. *)
Definition hourly (hours : list Z) : list (option Timestamp) :=
  map (fun h => Some (mkTimestamp 2016 7 1 h)) hours.

Definition values (l : list Z) : column := map (fun z => Some (inject_Z z)) l.

(** One channel that is constant but for its last row. *)
Definition flat_frame : DataFrame :=
  {| dates := hourly [0; 1; 2; 3; 4; 5; 6; 7];
     columns := [("OT"%string, values [1; 1; 1; 1; 1; 1; 1; 5])] |}.

(** A channel whose only value sits in a row that another channel makes an
    outlier. *)
Definition gap_frame : DataFrame :=
  {| dates := hourly [0; 1; 2; 3; 4];
     columns := [("HUFL"%string, [None; None; None; None; Some 1%Q]);
                 ("OT"%string, values [0; 0; 0; 0; 100])] |}.

(** Ten rows of one channel, and the same with row 7 changed. *)
Definition ramp_frame : DataFrame :=
  {| dates := hourly [0; 1; 2; 3; 4; 5; 6; 7; 8; 9];
     columns := [("OT"%string, values [0; 1; 2; 3; 4; 5; 6; 7; 8; 9])] |}.

Definition ramp_frame' : DataFrame :=
  {| dates := hourly [0; 1; 2; 3; 4; 5; 6; 7; 8; 9];
     columns := [("OT"%string, values [0; 1; 2; 3; 4; 5; 6; 8; 8; 9])] |}.

(** The split of the processed [ramp_frame]. *)
Definition ramp_split : Split :=
  {| train_dataset := iloc None (Some 7) (preprocess sqrt_fixed ramp_frame);
     valid_dataset := iloc (Some 7) (Some 8) (preprocess sqrt_fixed ramp_frame);
     test_dataset := iloc (Some 8) None (preprocess sqrt_fixed ramp_frame) |}.

(** A segment of four rows. *)
Definition short_segment : DataFrame :=
  {| dates := hourly [0; 1; 2; 3];
     columns := [("OT"%string, values [1; 2; 3; 4])] |}.

(** A frame of [n] rows without channels, to count windows on. *)
Definition blank_rows (n : nat) : DataFrame :=
  {| dates := repeat None n; columns := [] |}.

(* ------------------------------------------------------------------ *)
(** ** Auxiliary notions for the properties of the stages *)

(** A list of rationals in non-decreasing order. *)
Fixpoint ascending (l : list Q) : Prop :=
  match l with
  | [] => True
  | x :: rest => (forall y, In y rest -> (x <= y)%Q) /\ ascending rest
  end.

(** The linear interpolation at fractional position [pos] of a list, the
    body of [quantile]. *)
Definition interpolate (s : list Q) (a0 : Q) (pos : Q) : Q :=
  let lo := Z.to_nat (Qfloor pos) in
  let frac := (pos - inject_Z (Qfloor pos))%Q in
  let a := nth lo s a0 in
  let b := nth (S lo) s a in
  (a + (b - a) * frac)%Q.

(** The last value of a sequence of cells, [acc] when it has none. *)
Fixpoint last_value_from {A : Type} (acc : option A) (c : list (option A)) : option A :=
  match c with
  | [] => acc
  | Some x :: rest => last_value_from (Some x) rest
  | None :: rest => last_value_from acc rest
  end.

Definition last_value {A : Type} (c : list (option A)) : option A := last_value_from None c.

(** The first value of a sequence of cells. *)
Fixpoint first_value {A : Type} (c : list (option A)) : option A :=
  match c with
  | [] => None
  | Some x :: _ => Some x
  | None :: rest => first_value rest
  end.


(* ------------------------------------------------------------------ *)
(** ** Lines 46-48: the tables of the files, put end to end *)

(** The names of [l] that are not yet in [seen], appended to it in their
    order: the column index of an outer join that does not sort. *)
Fixpoint add_new (seen l : list string) : list string :=
  match l with
  | [] => seen
  | x :: rest =>
      if existsb (String.eqb x) seen then add_new seen rest
      else add_new (seen ++ [x]) rest
  end.

Definition union_names (dfs : list DataFrame) : list string :=
  fold_left (fun seen df => add_new seen (names (columns df))) dfs [].

(** The rows a frame contributes to column [name]: its column of that name,
    or as many NaN as it has rows. *)
Definition column_or_nan (name : string) (df : DataFrame) : column :=
  match get_column name (columns df) with
  | Some c => c
  | None => repeat None (length (dates df))
  end.

(** [pd.concat(dataframes, ignore_index=True)]: an error (here [None]) when
    there is no frame; otherwise the rows of the frames in the order of the
    list, under the union of their columns in the order of first appearance.
    Every frame has the timestamp column, which [read_csv] is told to
    parse. *)
Definition pd_concat (dataframes : list DataFrame) : option DataFrame :=
  match dataframes with
  | [] => None
  | _ :: _ =>
      Some {| dates := flat_map dates dataframes;
              columns := map (fun name => (name, flat_map (column_or_nan name) dataframes))
                             (union_names dataframes) |}
  end.
(* ------------------------------------------------------------------ *)
(** * Rounding to nearest in binary64 *)

Lemma digits2_pos_bounds (p : positive) :
  2 ^ (Zpos (digits2_pos p) - 1) <= Zpos p < 2 ^ Zpos (digits2_pos p).
Proof.
  induction p as [p IH | p IH | ]; cbn [digits2_pos].
  - rewrite Pos2Z.inj_succ.
    replace (Z.succ (Zpos (digits2_pos p)) - 1) with (Z.succ (Zpos (digits2_pos p) - 1)) by lia.
    rewrite !Z.pow_succ_r by lia. lia.
  - rewrite Pos2Z.inj_succ.
    replace (Z.succ (Zpos (digits2_pos p)) - 1) with (Z.succ (Zpos (digits2_pos p) - 1)) by lia.
    rewrite !Z.pow_succ_r by lia. lia.
  - cbn. lia.
Qed.

Lemma iter_pos_nat {A} (f : A -> A) (p : positive) (x : A) :
  iter_pos f p x = Nat.iter (Pos.to_nat p) f x.
Proof.
  revert x; induction p as [p IH | p IH | ]; intros x; cbn [iter_pos].
  - rewrite !IH, Pos2Nat.inj_xI.
    replace (S (2 * Pos.to_nat p)) with (Pos.to_nat p + (Pos.to_nat p + 1))%nat by lia.
    rewrite !Nat.iter_add. reflexivity.
  - rewrite !IH, Pos2Nat.inj_xO.
    replace (2 * Pos.to_nat p)%nat with (Pos.to_nat p + Pos.to_nat p)%nat by lia.
    rewrite Nat.iter_add. reflexivity.
  - reflexivity.
Qed.

Lemma shr_1_nonneg (x : shr_record) :
  0 <= shr_m x ->
  shr_1 x = Build_shr_record (shr_m x / 2) (Z.odd (shr_m x)) (shr_r x || shr_s x).
Proof.
  destruct x as [m r s]; cbn [shr_m shr_r shr_s]; intros Hm.
  destruct m as [ | [p | p | ] | p ]; try lia; cbn [shr_1].
  - reflexivity.
  - replace (Zpos p~1 / 2) with (Zpos p); [reflexivity | ].
    rewrite Pos2Z.inj_xI. apply Z.div_unique with 1; lia.
  - replace (Zpos p~0 / 2) with (Zpos p); [reflexivity | ].
    rewrite Pos2Z.inj_xO. apply Z.div_unique with 0; lia.
  - reflexivity.
Qed.

Lemma shr_iter_spec (M : Z) (k : nat) :
  0 <= M ->
  Nat.iter (S k) shr_1 (Build_shr_record M false false) =
  Build_shr_record (M / 2 ^ Z.of_nat (S k))
                   (Z.odd (M / 2 ^ Z.of_nat k))
                   (negb (M mod 2 ^ Z.of_nat k =? 0)).
Proof.
  intros HM; induction k as [ | k IH].
  - cbn [Nat.iter]. rewrite shr_1_nonneg by (cbn; lia). cbn [shr_m shr_r shr_s].
    change (2 ^ Z.of_nat 1) with 2. change (2 ^ Z.of_nat 0) with 1.
    rewrite Z.div_1_r, Z.mod_1_r. reflexivity.
  - change (Nat.iter (S (S k)) shr_1 ?x) with (shr_1 (Nat.iter (S k) shr_1 x)).
    rewrite IH.
    assert (Hp : 0 < 2 ^ Z.of_nat k) by (apply Z.pow_pos_nonneg; lia).
    assert (Hs : 2 ^ Z.of_nat (S k) = 2 ^ Z.of_nat k * 2)
      by (rewrite Nat2Z.inj_succ, Z.pow_succ_r; lia).
    rewrite shr_1_nonneg; cbn [shr_m shr_r shr_s].
    2:{ apply Z.div_pos; lia. }
    f_equal.
    + rewrite (Nat2Z.inj_succ (S k)), Z.pow_succ_r by lia.
      rewrite (Z.mul_comm 2), <- Z.div_div by lia. reflexivity.
    + rewrite Hs, Z.rem_mul_r, Zmod_odd by lia.
      pose proof (Z.mod_pos_bound M (2 ^ Z.of_nat k) Hp).
      destruct (Z.odd (M / 2 ^ Z.of_nat k)); cbn [orb].
      * symmetry. apply negb_true_iff, Z.eqb_neq. nia.
      * f_equal. f_equal. lia.
Qed.

Lemma digits2_pos_unique (p : positive) (k : Z) :
  2 ^ (k - 1) <= Zpos p < 2 ^ k -> Zpos (digits2_pos p) = k.
Proof.
  intros [Hlo Hhi]. pose proof (digits2_pos_bounds p) as [Dlo Dhi].
  set (d := Zpos (digits2_pos p)) in *.
  assert (0 < d) by (subst d; lia).
  assert (0 < k).
  { destruct (Z.leb_spec k 0) as [Hk | Hk]; [ | lia].
    assert (2 ^ k <= 2 ^ 0) by (destruct (Z.eq_dec k 0) as [-> | ];
      [lia | rewrite Z.pow_neg_r by lia; cbn; lia]).
    change (2 ^ 0) with 1 in *. lia. }
  destruct (Z.lt_trichotomy d k) as [Hlt | [Heq | Hgt]]; [ | exact Heq | ].
  - assert (2 ^ d <= 2 ^ (k - 1)) by (apply Z.pow_le_mono_r; lia). lia.
  - assert (2 ^ k <= 2 ^ (d - 1)) by (apply Z.pow_le_mono_r; lia). lia.
Qed.

Lemma round_shift (M : Z) (n : positive) :
  0 < M ->
  let mrs := iter_pos shr_1 n (Build_shr_record M false false) in
  let q := round_nearest_even (shr_m mrs) (loc_of_shr_record mrs) in
  M / 2 ^ Zpos n <= q <= M / 2 ^ Zpos n + 1 /\
  2 * (q * 2 ^ Zpos n - M) <= 2 ^ Zpos n /\
  2 * (M - q * 2 ^ Zpos n) <= 2 ^ Zpos n.
Proof.
  intros HM mrs q; subst q mrs.
  rewrite iter_pos_nat.
  destruct (Pos2Nat.is_succ n) as [k Hk]. rewrite Hk.
  rewrite shr_iter_spec by lia.
  replace (Zpos n) with (Z.of_nat (S k)) by lia.
  assert (Hp : 0 < 2 ^ Z.of_nat k) by (apply Z.pow_pos_nonneg; lia).
  assert (Hs : 2 ^ Z.of_nat (S k) = 2 ^ Z.of_nat k * 2)
    by (rewrite Nat2Z.inj_succ, Z.pow_succ_r; lia).
  rewrite Hs. set (P := 2 ^ Z.of_nat k) in *.
  pose proof (Z.div_mod M (P * 2) ltac:(lia)) as Hdm.
  pose proof (Z.rem_mul_r M P 2 ltac:(lia) ltac:(lia)) as Hrem.
  rewrite Zmod_odd in Hrem.
  pose proof (Z.mod_pos_bound M P Hp) as Hb.
  set (q0 := M / (P * 2)) in *.
  cbn [shr_m loc_of_shr_record].
  destruct (Z.odd (M / P)); destruct (M mod P =? 0) eqn:Hz;
    [apply Z.eqb_eq in Hz | apply Z.eqb_neq in Hz
    | apply Z.eqb_eq in Hz | apply Z.eqb_neq in Hz];
    cbn [negb round_nearest_even]; try destruct (Z.even q0); nia.
Qed.

(** The last step of a rounding: the result is finite unless the exponent
    left the range. *)
Lemma finite_or_overflow (s : bool) (m : positive) (e B : Z) (P : positive -> Z -> Prop) :
  e <= B -> P m e ->
  let r := if e <=? Float64.emax - Float64.prec then S754_finite s m e else S754_infinity s in
  (r = S754_infinity s /\ Float64.emax - Float64.prec < B) \/
  (exists m' e', r = S754_finite s m' e' /\ P m' e').
Proof.
  intros HB HP r; subst r.
  destruct (Z.leb_spec e (Float64.emax - Float64.prec)).
  - right. exists m, e. split; [reflexivity | exact HP].
  - left. split; [reflexivity | lia].
Qed.

(** Rounding an exact positive value [M * 2^E] to nearest, ties to even,
    outside the subnormal range: either the exponent overflows, or the
    result is within half a unit in the last place, that is within a
    relative error of [2^-53]. *)
Lemma binary_round_aux_bounds (s : bool) (M : positive) (E : Z) :
  let d := Zpos (digits2_pos M) in
  emin Float64.prec Float64.emax <= d + E - Float64.prec ->
  (binary_round_aux Float64.prec Float64.emax s (Zpos M) E loc_Exact = S754_infinity s /\
   Float64.emax - Float64.prec < Z.max E (d + E - Float64.prec) + 1) \/
  (exists m e,
    binary_round_aux Float64.prec Float64.emax s (Zpos M) E loc_Exact = S754_finite s m e /\
    (E <= e <= Z.max E (d + E - Float64.prec) + 1 /\
     Zpos (digits2_pos m) <= Float64.prec /\
     (Zpos m * 2 ^ (e - E) - Zpos M) * 2 ^ Float64.prec <= Zpos M /\
     (Zpos M - Zpos m * 2 ^ (e - E)) * 2 ^ Float64.prec <= Zpos M)).
Proof.
  intros d Hmin.
  pose proof (digits2_pos_bounds M) as HdM. fold d in HdM.
  unfold binary_round_aux, shr_fexp, shr, fexp.
  cbn [Zdigits2 shr_record_of_loc]. fold d.
  rewrite (Z.max_l (d + E - Float64.prec)) by lia.
  replace (d + E - Float64.prec - E) with (d - Float64.prec) by lia.
  set (B := Z.max E (d + E - Float64.prec) + 1).
  set (P := fun (m : positive) (e : Z) =>
    E <= e <= B /\
    Zpos (digits2_pos m) <= Float64.prec /\
    (Zpos m * 2 ^ (e - E) - Zpos M) * 2 ^ Float64.prec <= Zpos M /\
    (Zpos M - Zpos m * 2 ^ (e - E)) * 2 ^ Float64.prec <= Zpos M).
  assert (Hfit : d - Float64.prec <= 0 ->
    let r :=
      (let '(mrs'', e'') :=
         match Z.max (Zdigits2 (Zpos M) + E - Float64.prec)
                     (emin Float64.prec Float64.emax) - E with
         | Zpos p => (iter_pos shr_1 p (Build_shr_record (Zpos M) false false),
                      E + (Z.max (Zdigits2 (Zpos M) + E - Float64.prec)
                                 (emin Float64.prec Float64.emax) - E))
         | _ => (Build_shr_record (Zpos M) false false, E)
         end in
       match shr_m mrs'' with
       | 0 => S754_zero s
       | Zpos m => if e'' <=? Float64.emax - Float64.prec
                   then S754_finite s m e'' else S754_infinity s
       | Zneg _ => S754_nan
       end) in
    (r = S754_infinity s /\ Float64.emax - Float64.prec < B) \/
    (exists m e, r = S754_finite s m e /\ P m e)).
  { (* the mantissa already fits: nothing is shifted out *)
    intros Hle. cbn [Zdigits2]. fold d.
    rewrite (Z.max_l (d + E - Float64.prec)) by lia.
    replace (d + E - Float64.prec - E) with (d - Float64.prec) by lia.
    assert (HP : P M E).
    { unfold P. rewrite Z.sub_diag. change (2 ^ 0) with 1. fold d.
      subst B. repeat split; lia. }
    pose proof (finite_or_overflow s M E B P ltac:(subst B; lia) HP) as Hr.
    destruct (d - Float64.prec); try lia; cbn [shr_m]; exact Hr. }
  destruct (d - Float64.prec) as [ | n | n] eqn:Hn.
  - cbn [shr_m loc_of_shr_record round_nearest_even]. apply Hfit. lia.
  - (* n low bits are rounded away *)
    pose proof (round_shift (Zpos M) n ltac:(lia)) as (Hq & Hup & Hdn).
    cbv zeta in Hq, Hup, Hdn.
    set (mrs := iter_pos shr_1 n (Build_shr_record (Zpos M) false false)) in *.
    set (q := round_nearest_even (shr_m mrs) (loc_of_shr_record mrs)) in *.
    assert (Hpn : 0 < 2 ^ Zpos n) by (apply Z.pow_pos_nonneg; lia).
    assert (Hd : d = Zpos n + Float64.prec) by lia.
    assert (Hsplit : 2 ^ d = 2 ^ Zpos n * 2 ^ Float64.prec)
      by (rewrite Hd, Z.pow_add_r; unfold Float64.prec; lia).
    assert (Hsplit' : 2 ^ (d - 1) = 2 ^ Zpos n * 2 ^ (Float64.prec - 1))
      by (replace (d - 1) with (Zpos n + (Float64.prec - 1)) by lia;
          rewrite Z.pow_add_r; unfold Float64.prec; lia).
    assert (Hq0 : 2 ^ (Float64.prec - 1) <= Zpos M / 2 ^ Zpos n < 2 ^ Float64.prec).
    { split.
      - apply Z.div_le_lower_bound; lia.
      - apply Z.div_lt_upper_bound; lia. }
    assert (Hqpos : 0 < q) by (unfold Float64.prec in *; lia).
    destruct q as [ | qp | qp] eqn:Hqe; try lia.
    destruct (Z.eq_dec (Zpos qp) (2 ^ Float64.prec)) as [Hc | Hc].
    + (* carry into a 54th bit: one more shift, nothing is lost *)
      assert (Hdig : Zpos (digits2_pos qp) = Float64.prec + 1).
      { apply digits2_pos_unique. rewrite Hc.
        replace (Float64.prec + 1 - 1) with Float64.prec by lia.
        unfold Float64.prec. cbn. lia. }
      cbn [Zdigits2]. rewrite Hdig.
      rewrite (Z.max_l (Float64.prec + 1 + (E + Zpos n) - Float64.prec)) by lia.
      replace (Float64.prec + 1 + (E + Zpos n) - Float64.prec - (E + Zpos n)) with 1 by lia.
      cbn [iter_pos]. rewrite shr_1_nonneg by (cbn; lia). cbn [shr_m].
      rewrite Hc. change (2 ^ Float64.prec / 2) with (Zpos (2 ^ 52)).
      apply finite_or_overflow; [subst B; lia | ].
      unfold P.
      replace (E + Zpos n + 1 - E) with (Z.succ (Zpos n)) by lia.
      rewrite Z.pow_succ_r by lia.
      change (Zpos (2 ^ 52)) with (2 ^ 52).
      assert (2 ^ 52 * (2 * 2 ^ Zpos n) = Zpos qp * 2 ^ Zpos n)
        by (rewrite Hc; unfold Float64.prec; lia).
      subst B. repeat split; try lia.
      * cbn. unfold Float64.prec. lia.
      * unfold Float64.prec in *. nia.
      * unfold Float64.prec in *. nia.
    + assert (Hdig : Zpos (digits2_pos qp) = Float64.prec).
      { apply digits2_pos_unique. lia. }
      cbn [Zdigits2]. rewrite Hdig.
      rewrite (Z.max_l (Float64.prec + (E + Zpos n) - Float64.prec)) by lia.
      replace (Float64.prec + (E + Zpos n) - Float64.prec - (E + Zpos n)) with 0 by lia.
      cbn [shr_m].
      apply finite_or_overflow; [subst B; lia | ].
      unfold P.
      replace (E + Zpos n - E) with (Zpos n) by lia.
      subst B. repeat split; try lia.
      * unfold Float64.prec in *. nia.
      * unfold Float64.prec in *. nia.
  - cbn [shr_m loc_of_shr_record round_nearest_even]. apply Hfit. lia.
Qed.

(** ** Values *)

Lemma pow2_pos (e : Z) : (0 < 2 ^ e)%Q.
Proof. apply Qpower_0_lt. reflexivity. Qed.

Lemma inject_Z_sub (a b : Z) : inject_Z (a - b) == (inject_Z a - inject_Z b)%Q.
Proof.
  unfold Z.sub, Qminus. rewrite inject_Z_plus, inject_Z_opp. reflexivity.
Qed.

Lemma F2Q_rescale (m : positive) (e E : Z) :
  E <= e ->
  Float64.F2Q m e == (inject_Z (Zpos m * 2 ^ (e - E)) * 2 ^ E)%Q.
Proof.
  intros H. unfold Float64.F2Q.
  rewrite inject_Z_mult, Zpower_Qpower by lia.
  change (inject_Z 2) with 2%Q.
  rewrite <- Qmult_assoc, <- Qpower_plus by discriminate.
  replace (e - E + E) with e by lia. reflexivity.
Qed.

Lemma F2Q_pos (m : positive) (e : Z) : (0 < Float64.F2Q m e)%Q.
Proof.
  unfold Float64.F2Q. pose proof (pow2_pos e).
  assert (0 < inject_Z (Zpos m))%Q by (change 0%Q with (inject_Z 0); rewrite <- Zlt_Qlt; lia).
  nra.
Qed.

Lemma F2Q_mul (m1 m2 : positive) (e1 e2 : Z) :
  Float64.F2Q (m1 * m2) (e1 + e2) == (Float64.F2Q m1 e1 * Float64.F2Q m2 e2)%Q.
Proof.
  unfold Float64.F2Q. rewrite Pos2Z.inj_mul, inject_Z_mult, Qpower_plus by discriminate.
  ring.
Qed.

(** The rounding lemma on values: a finite result is within a relative
    error of [2^-53] of the exact value. *)
Lemma binary_round_aux_value (s : bool) (M : positive) (E : Z) (m : positive) (e : Z) :
  emin Float64.prec Float64.emax <= Zpos (digits2_pos M) + E - Float64.prec ->
  binary_round_aux Float64.prec Float64.emax s (Zpos M) E loc_Exact = S754_finite s m e ->
  E <= e <= Z.max E (Zpos (digits2_pos M) + E - Float64.prec) + 1 /\
  Zpos (digits2_pos m) <= Float64.prec /\
  ((Float64.F2Q m e - Float64.F2Q M E) * inject_Z (2 ^ 53) <= Float64.F2Q M E)%Q /\
  ((Float64.F2Q M E - Float64.F2Q m e) * inject_Z (2 ^ 53) <= Float64.F2Q M E)%Q.
Proof.
  intros Hmin Hr.
  destruct (binary_round_aux_bounds s M E Hmin) as [[Hinf _] | (m' & e' & Hfin & He & Hd & Hup & Hdn)].
  - rewrite Hinf in Hr. discriminate.
  - rewrite Hfin in Hr. injection Hr as -> ->.
    split; [exact He | split; [exact Hd | ]].
    rewrite (F2Q_rescale m e E) by lia.
    assert (HM : Float64.F2Q M E == (inject_Z (Zpos M) * 2 ^ E)%Q) by reflexivity.
    rewrite HM.
    pose proof (pow2_pos E) as HE.
    change (2 ^ Float64.prec) with (2 ^ 53) in Hup, Hdn.
    rewrite Zle_Qle, inject_Z_mult, inject_Z_sub in Hup, Hdn.
    set (a := inject_Z (Zpos m * 2 ^ (e - E))) in *.
    set (b := inject_Z (Zpos M)) in *.
    set (u := inject_Z (2 ^ 53)) in *.
    split; nra.
Qed.

(** ** [float(n)] *)

Lemma shl_align_value (mx : positive) (ex ex' : Z) :
  let mz := fst (shl_align mx ex ex') in
  let ez := snd (shl_align mx ex ex') in
  ez = Z.min ex ex' /\ Zpos mz = Zpos mx * 2 ^ (ex - ez).
Proof.
  unfold shl_align. destruct (ex' - ex) as [ | d | d] eqn:Hd; cbn [fst snd].
  - split; [lia | ]. replace (ex - ex) with 0 by lia. lia.
  - split; [lia | ]. replace (ex - ex) with 0 by lia. lia.
  - split; [lia | ]. replace (ex - ex') with (Zpos d) by lia.
    change (Pos.iter xO mx d) with (shift_pos d mx).
    rewrite shift_pos_correct. change (Z.pow_pos 2 d) with (2 ^ Zpos d). lia.
Qed.

Lemma pow2_le_digits (p : positive) (k : Z) :
  Zpos p < 2 ^ k -> Zpos (digits2_pos p) <= k.
Proof.
  intros H. pose proof (digits2_pos_bounds p) as [Hlo _].
  destruct (Z.leb_spec (Zpos (digits2_pos p)) k) as [ | Hgt]; [assumption | ].
  assert (2 ^ k <= 2 ^ (Zpos (digits2_pos p) - 1)).
  { destruct (Z.leb_spec 0 k).
    - apply Z.pow_le_mono_r; lia.
    - rewrite (Z.pow_neg_r 2 k) by lia. apply Z.pow_nonneg. lia. }
  lia.
Qed.

(** [float(n)] of a positive int: an overflow for huge [n] only, and
    otherwise a double within a relative error of [2^-53] of [n]. *)
Lemma of_int_pos (p : positive) :
  let dp := Zpos (digits2_pos p) in
  (Float64.of_int (Zpos p) = None /\ 1024 <= dp) \/
  (exists m e,
     Float64.of_int (Zpos p) = Some (S754_finite false m e) /\
     -52 <= e <= Z.max 0 (dp - 53) + 1 /\
     Zpos (digits2_pos m) <= 53 /\
     ((Float64.F2Q m e - inject_Z (Zpos p)) * inject_Z (2 ^ 53) <= inject_Z (Zpos p))%Q /\
     ((inject_Z (Zpos p) - Float64.F2Q m e) * inject_Z (2 ^ 53) <= inject_Z (Zpos p))%Q).
Proof.
  intros dp.
  unfold Float64.of_int, binary_normalize, binary_round.
  pose proof (shl_align_value p 0 (fexp Float64.prec Float64.emax (dp + 0))) as Hal.
  fold dp.
  destruct (shl_align p 0 (fexp Float64.prec Float64.emax (dp + 0))) as [mz ez].
  cbn [fst snd] in Hal. destruct Hal as [Hez Hmz].
  assert (Hdp : 0 < dp) by (subst dp; lia).
  unfold fexp, emin, Float64.prec, Float64.emax in Hez.
  assert (Hez' : ez = Z.min 0 (dp - 53)) by lia. clear Hez.
  pose proof (digits2_pos_bounds p) as Hbp. fold dp in Hbp.
  assert (Hpe : 0 < 2 ^ (0 - ez)) by (apply Z.pow_pos_nonneg; lia).
  assert (Hdz : Zpos (digits2_pos mz) = dp - ez).
  { apply digits2_pos_unique. rewrite Hmz.
    replace (dp - ez - 1) with ((dp - 1) + (0 - ez)) by lia.
    replace (dp - ez) with (dp + (0 - ez)) by lia.
    rewrite !Z.pow_add_r by lia. nia. }
  assert (Hv : Float64.F2Q mz ez == inject_Z (Zpos p)).
  { rewrite (F2Q_rescale mz ez ez) by lia. rewrite Z.sub_diag, Z.mul_1_r, Hmz.
    rewrite inject_Z_mult, Zpower_Qpower by lia. change (inject_Z 2) with 2%Q.
    rewrite <- Qmult_assoc, <- Qpower_plus by discriminate.
    replace (0 - ez + ez) with 0 by lia. change (2 ^ 0)%Q with 1%Q. ring. }
  assert (Hmin : emin Float64.prec Float64.emax
                 <= Zpos (digits2_pos mz) + ez - Float64.prec).
  { rewrite Hdz. unfold emin, Float64.prec, Float64.emax. lia. }
  destruct (binary_round_aux_bounds false mz ez Hmin)
    as [[Hinf Hov] | (m & e & Hfin & _)].
  - left. rewrite Hinf. split; [reflexivity | ].
    rewrite Hdz in Hov. unfold Float64.prec, Float64.emax in Hov. lia.
  - right. exists m, e. rewrite Hfin. split; [reflexivity | ].
    destruct (binary_round_aux_value false mz ez m e Hmin Hfin) as (He & Hd & Hup & Hdn).
    rewrite Hdz in He. unfold Float64.prec in He, Hd.
    rewrite Hv in Hup, Hdn.
    repeat split; try lia; assumption.
Qed.

(** ** [int(x)] *)

Lemma to_int_value (m : positive) (e : Z) :
  exists t, Float64.to_int (S754_finite false m e) = Some t /\
            0 <= t /\
            (inject_Z t <= Float64.F2Q m e)%Q /\
            (Float64.F2Q m e < inject_Z t + 1)%Q.
Proof.
  unfold Float64.to_int.
  destruct (Z.leb_spec 0 e) as [He | He].
  - exists (Zpos m * 2 ^ e). split; [reflexivity | ].
    assert (0 < 2 ^ e) by (apply Z.pow_pos_nonneg; lia).
    split; [lia | ].
    assert (Hv : Float64.F2Q m e == inject_Z (Zpos m * 2 ^ e)).
    { unfold Float64.F2Q. rewrite inject_Z_mult, Zpower_Qpower by lia. reflexivity. }
    rewrite Hv. split; lra.
  - exists (Zpos m / 2 ^ (- e)). split; [reflexivity | ].
    assert (Hp : 0 < 2 ^ (- e)) by (apply Z.pow_pos_nonneg; lia).
    pose proof (Z.div_mod (Zpos m) (2 ^ (- e)) ltac:(lia)) as Hdm.
    pose proof (Z.mod_pos_bound (Zpos m) (2 ^ (- e)) Hp) as Hb.
    set (t := Zpos m / 2 ^ (- e)) in *.
    assert (Ht : 0 <= t) by (subst t; apply Z.div_pos; lia).
    split; [exact Ht | ].
    assert (Hlo : t * 2 ^ (- e) <= Zpos m) by lia.
    assert (Hhi : Zpos m < (t + 1) * 2 ^ (- e)) by lia.
    rewrite Zle_Qle, inject_Z_mult in Hlo. rewrite Zlt_Qlt, inject_Z_mult, inject_Z_plus in Hhi.
    rewrite Zpower_Qpower in Hlo, Hhi by lia. change (inject_Z 2) with 2%Q in *.
    change (inject_Z 1) with 1%Q in Hhi.
    unfold Float64.F2Q.
    pose proof (pow2_pos e) as H1. pose proof (pow2_pos (- e)) as H2.
    assert (Hinv : (2 ^ e * 2 ^ (- e) == 1)%Q).
    { rewrite <- Qpower_plus by discriminate. replace (e + - e) with 0 by lia. reflexivity. }
    set (a := (2 ^ e)%Q) in *. set (b := (2 ^ (- e))%Q) in *.
    set (x := inject_Z (Zpos m)) in *. set (y := inject_Z t) in *.
    assert (Hy : forall z : Q, (z * b * a == z)%Q).
    { intros z. rewrite <- Qmult_assoc, (Qmult_comm b a), Hinv. ring. }
    split.
    + assert (y * b * a <= x * a)%Q by nra. rewrite Hy in *. assumption.
    + assert (x * a < (y + 1) * b * a)%Q by nra. rewrite Hy in *. assumption.
Qed.

(** ** [int(n * c)] *)

(** For a row count [n] and a positive constant [c] below one:
    [int(n * c)] is defined unless [n] is astronomically large, it is not
    negative, and it is within two roundings of the exact product. *)
Lemma int_mul_spec (n : Z) (mc : positive) (ec : Z) :
  0 <= n ->
  Zpos (digits2_pos mc) <= 53 ->
  -200 <= ec <= -53 ->
  let c := S754_finite false mc ec in
  let u := inject_Z (2 ^ 53) in
  (n < 2 ^ 1022 -> exists t, int_mul n c = Some t) /\
  (forall t, int_mul n c = Some t ->
     0 <= t /\
     (inject_Z t * (u * u) <= inject_Z n * Float64.F2Q mc ec * ((u + 1) * (u + 1)))%Q /\
     (inject_Z n * Float64.F2Q mc ec * ((u - 1) * (u - 1)) < (inject_Z t + 1) * (u * u))%Q).
Proof.
  intros Hn Hdc Hec c u.
  assert (Hu : (u == 9007199254740992)%Q) by reflexivity.
  pose proof (F2Q_pos mc ec) as Hcpos.
  destruct n as [ | p | p]; [ | | lia].
  - (* no rows *)
    split.
    + intros _. exists 0. reflexivity.
    + intros t Ht. cbn in Ht. injection Ht as <-.
      change (inject_Z 0) with 0%Q. split; [lia | split; nra].
  - unfold int_mul.
    destruct (of_int_pos p) as [[Hnone Hbig] | (m & e & Hsome & He & Hd & Hup & Hdn)].
    + (* float(n) overflows *)
      rewrite Hnone. split; [ | discriminate].
      intros Hlt. apply pow2_le_digits in Hlt. lia.
    + rewrite Hsome. unfold Float64.mul, c, SFmul. cbn [xorb].
      pose proof (digits2_pos_bounds m) as Hbm.
      pose proof (digits2_pos_bounds mc) as Hbc.
      assert (Hm53 : Zpos m < 2 ^ 53).
      { apply Z.lt_le_trans with (2 ^ Zpos (digits2_pos m)); [lia | ].
        apply Z.pow_le_mono_r; lia. }
      assert (Hc53 : Zpos mc < 2 ^ 53).
      { apply Z.lt_le_trans with (2 ^ Zpos (digits2_pos mc)); [lia | ].
        apply Z.pow_le_mono_r; lia. }
      assert (Hdm : Zpos (digits2_pos (m * mc)) <= 106).
      { apply pow2_le_digits. rewrite Pos2Z.inj_mul.
        change (2 ^ 106) with (2 ^ 53 * 2 ^ 53). nia. }
      assert (Hmin : emin Float64.prec Float64.emax
                     <= Zpos (digits2_pos (m * mc)) + (e + ec) - Float64.prec).
      { unfold emin, Float64.prec, Float64.emax. lia. }
      destruct (binary_round_aux_bounds false (m * mc) (e + ec) Hmin)
        as [[Hinf Hov] | (mr & er & Hfin & _)].
      * (* the product overflows *)
        rewrite Hinf. cbn [Float64.to_int]. split; [ | discriminate].
        intros Hlt. apply pow2_le_digits in Hlt.
        unfold Float64.prec, Float64.emax in Hov. lia.
      * rewrite Hfin.
        destruct (binary_round_aux_value false (m * mc) (e + ec) mr er Hmin Hfin)
          as (_ & _ & Hrup & Hrdn).
        destruct (to_int_value mr er) as (t & Ht & Htpos & Htle & Htlt).
        rewrite Ht. split; [intros _; exists t; reflexivity | ].
        intros t' Heq. injection Heq as <-.
        split; [exact Htpos | ].
        rewrite F2Q_mul in Hrup, Hrdn.
        fold u in Hup, Hdn, Hrup, Hrdn.
        pose proof (F2Q_pos m e) as Hxpos.
        set (x := Float64.F2Q m e) in *.
        set (r := Float64.F2Q mr er) in *.
        set (cv := Float64.F2Q mc ec) in *.
        set (nq := inject_Z (Zpos p)) in *.
        set (tq := inject_Z t) in *.
        assert (Hxc : (0 < x * cv)%Q) by nra.
        set (xc := (x * cv)%Q) in *.
        assert (H1 : (r * u <= xc * (u + 1))%Q) by lra.
        assert (H2 : (xc * (u - 1) <= r * u)%Q) by lra.
        assert (H3 : (x * u <= nq * (u + 1))%Q) by lra.
        assert (H4 : (nq * (u - 1) <= x * u)%Q) by lra.
        assert (H5 : (xc * u <= nq * cv * (u + 1))%Q) by (subst xc; nra).
        assert (H6 : (nq * cv * (u - 1) <= xc * u)%Q) by (subst xc; nra).
        split.
        -- assert (r * u * u <= xc * u * (u + 1))%Q by nra.
           assert (xc * u * (u + 1) <= nq * cv * (u + 1) * (u + 1))%Q by nra.
           assert (tq * (u * u) <= r * u * u)%Q by nra.
           lra.
        -- assert (xc * u * (u - 1) <= r * u * u)%Q by nra.
           assert (nq * cv * (u - 1) * (u - 1) <= xc * u * (u - 1))%Q by nra.
           assert (r * u * u < (tq + 1) * (u * u))%Q by nra.
           lra.
Qed.

(* ------------------------------------------------------------------ *)
(** * The split sizes *)

Lemma lit_0_7_value : Float64.F2Q 6305039478318694 (-53) == 6305039478318694 # 9007199254740992.
Proof. reflexivity. Qed.

Lemma lit_0_2_value : Float64.F2Q 7205759403792794 (-55) == 7205759403792794 # 36028797018963968.
Proof. reflexivity. Qed.

Lemma num_train_total (n : Z) :
  0 <= n < 2 ^ 1022 -> exists t, num_train n = Some t.
Proof.
  intros [Hn Hlt].
  apply (int_mul_spec n 6305039478318694 (-53) Hn); [cbn; lia | lia | exact Hlt].
Qed.

Lemma num_test_total (n : Z) :
  0 <= n < 2 ^ 1022 -> exists t, num_test n = Some t.
Proof.
  intros [Hn Hlt].
  apply (int_mul_spec n 7205759403792794 (-55) Hn); [cbn; lia | lia | exact Hlt].
Qed.

(** The two sizes never use up more than the rows there are. *)
Lemma num_train_test_bounds (n n_train n_test : Z) :
  0 <= n ->
  num_train n = Some n_train ->
  num_test n = Some n_test ->
  0 <= n_train /\ 0 <= n_test /\ n_train + n_test <= n.
Proof.
  intros Hn Htr Hte.
  destruct (int_mul_spec n 6305039478318694 (-53) Hn ltac:(cbn; lia) ltac:(lia))
    as [_ H7].
  destruct (int_mul_spec n 7205759403792794 (-55) Hn ltac:(cbn; lia) ltac:(lia))
    as [_ H2].
  destruct (H7 n_train Htr) as (Ha & Hb & _).
  destruct (H2 n_test Hte) as (Hc & Hd & _).
  split; [exact Ha | split; [exact Hc | ]].
  rewrite lit_0_7_value in Hb. rewrite lit_0_2_value in Hd.
  assert (Hu : inject_Z (2 ^ 53) == 9007199254740992) by reflexivity.
  rewrite Hu in Hb, Hd.
  assert (Hnq : (0 <= inject_Z n)%Q) by (change 0%Q with (inject_Z 0); rewrite <- Zle_Qle; lia).
  rewrite Zle_Qle, inject_Z_plus.
  set (a := inject_Z n_train) in *. set (b := inject_Z n_test) in *.
  set (x := inject_Z n) in *.
  lra.
Qed.

(** Up to [2^49] rows the training size is [floor(0.7 n)] or one less, and
    the test size is [floor(0.2 n)] or one less. *)
Lemma num_train_near_floor (n n_train : Z) :
  0 <= n <= 2 ^ 49 ->
  num_train n = Some n_train ->
  7 * n / 10 - 1 <= n_train <= 7 * n / 10.
Proof.
  intros Hn Htr.
  destruct (int_mul_spec n 6305039478318694 (-53) ltac:(lia) ltac:(cbn; lia) ltac:(lia))
    as [_ H7].
  destruct (H7 n_train Htr) as (Ha & Hb & Hc).
  rewrite lit_0_7_value in Hb, Hc.
  assert (Hu : inject_Z (2 ^ 53) == 9007199254740992) by reflexivity.
  rewrite Hu in Hb, Hc.
  assert (Hnq : (0 <= inject_Z n <= 562949953421312)%Q).
  { split; [change 0%Q with (inject_Z 0) | change 562949953421312%Q with (inject_Z (2 ^ 49))];
      rewrite <- Zle_Qle; lia. }
  assert (Hup : (inject_Z (10 * n_train) < inject_Z (7 * n + 1))%Q).
  { rewrite inject_Z_plus, !inject_Z_mult.
    change (inject_Z 10) with 10%Q. change (inject_Z 7) with 7%Q. change (inject_Z 1) with 1%Q.
    set (a := inject_Z n_train) in *. set (x := inject_Z n) in *. lra. }
  assert (Hdn : (inject_Z (7 * n - 12) < inject_Z (10 * n_train))%Q).
  { rewrite inject_Z_sub, !inject_Z_mult.
    change (inject_Z 10) with 10%Q. change (inject_Z 7) with 7%Q. change (inject_Z 12) with 12%Q.
    set (a := inject_Z n_train) in *. set (x := inject_Z n) in *. lra. }
  rewrite <- Zlt_Qlt in Hup, Hdn.
  pose proof (Z.div_mod (7 * n) 10 ltac:(lia)).
  pose proof (Z.mod_pos_bound (7 * n) 10 ltac:(lia)).
  lia.
Qed.

Lemma num_test_near_floor (n n_test : Z) :
  0 <= n <= 2 ^ 49 ->
  num_test n = Some n_test ->
  n / 5 - 1 <= n_test <= n / 5.
Proof.
  intros Hn Hte.
  destruct (int_mul_spec n 7205759403792794 (-55) ltac:(lia) ltac:(cbn; lia) ltac:(lia))
    as [_ H2].
  destruct (H2 n_test Hte) as (Ha & Hb & Hc).
  rewrite lit_0_2_value in Hb, Hc.
  assert (Hu : inject_Z (2 ^ 53) == 9007199254740992) by reflexivity.
  rewrite Hu in Hb, Hc.
  assert (Hnq : (0 <= inject_Z n <= 562949953421312)%Q).
  { split; [change 0%Q with (inject_Z 0) | change 562949953421312%Q with (inject_Z (2 ^ 49))];
      rewrite <- Zle_Qle; lia. }
  assert (Hup : (inject_Z (5 * n_test) < inject_Z (n + 1))%Q).
  { rewrite inject_Z_plus, !inject_Z_mult.
    change (inject_Z 5) with 5%Q. change (inject_Z 1) with 1%Q.
    set (a := inject_Z n_test) in *. set (x := inject_Z n) in *. lra. }
  assert (Hdn : (inject_Z (n - 6) < inject_Z (5 * n_test))%Q).
  { rewrite inject_Z_sub, !inject_Z_mult.
    change (inject_Z 5) with 5%Q. change (inject_Z 6) with 6%Q.
    set (a := inject_Z n_test) in *. set (x := inject_Z n) in *. lra. }
  rewrite <- Zlt_Qlt in Hup, Hdn.
  pose proof (Z.div_mod n 5 ltac:(lia)).
  pose proof (Z.mod_pos_bound n 5 ltac:(lia)).
  lia.
Qed.

(** ** Slices *)

Lemma slice_prefix {A : Type} (l : list A) (a : Z) :
  0 <= a <= Z.of_nat (length l) ->
  slice None (Some a) l = firstn (Z.to_nat a) l.
Proof.
  intros H. unfold slice, slice_index.
  destruct (Z.ltb_spec a 0); [lia | ].
  rewrite Z.min_l by lia. rewrite Z.sub_0_r. reflexivity.
Qed.

Lemma slice_middle {A : Type} (l : list A) (a b : Z) :
  0 <= a <= b -> b <= Z.of_nat (length l) ->
  slice (Some a) (Some b) l = firstn (Z.to_nat (b - a)) (skipn (Z.to_nat a) l).
Proof.
  intros Ha Hb. unfold slice, slice_index.
  destruct (Z.ltb_spec a 0); [lia | ]. destruct (Z.ltb_spec b 0); [lia | ].
  rewrite !Z.min_l by lia. reflexivity.
Qed.

Lemma slice_suffix {A : Type} (l : list A) (b : Z) :
  0 <= b <= Z.of_nat (length l) ->
  slice (Some b) None l = skipn (Z.to_nat b) l.
Proof.
  intros H. unfold slice, slice_index.
  destruct (Z.ltb_spec b 0); [lia | ].
  rewrite Z.min_l by lia. apply firstn_all2. rewrite length_skipn. lia.
Qed.

(** Three consecutive slices put a sequence back together. *)
Lemma slice_partition {A : Type} (l : list A) (a b : Z) :
  0 <= a <= b -> b <= Z.of_nat (length l) ->
  (slice None (Some a) l ++ slice (Some a) (Some b) l ++ slice (Some b) None l = l)%list /\
  Z.of_nat (length (slice None (Some a) l)) = a /\
  Z.of_nat (length (slice (Some a) (Some b) l)) = b - a /\
  Z.of_nat (length (slice (Some b) None l)) = Z.of_nat (length l) - b.
Proof.
  intros Ha Hb.
  rewrite slice_prefix, slice_middle, slice_suffix by lia.
  split.
  - replace (Z.to_nat b) with (Z.to_nat (b - a) + Z.to_nat a)%nat by lia.
    rewrite <- skipn_skipn.
    rewrite (firstn_skipn (Z.to_nat (b - a)) (skipn (Z.to_nat a) l)).
    apply firstn_skipn.
  - rewrite !length_firstn, !length_skipn. lia.
Qed.

(** ** The windowed dataset *)

Lemma window_starts_length (last : Z) :
  Z.of_nat (length (window_starts last)) = Z.max 0 (last + 1).
Proof.
  unfold window_starts. rewrite length_map, length_seq. lia.
Qed.

Lemma window_starts_spec (last i : Z) :
  In i (window_starts last) <-> 0 <= i <= last.
Proof.
  unfold window_starts. rewrite in_map_iff. split.
  - intros (k & <- & Hk). apply in_seq in Hk. lia.
  - intros H. exists (Z.to_nat i). split; [lia | ]. apply in_seq. lia.
Qed.

(* ------------------------------------------------------------------ *)
(** * Forward and backward fill *)

Section Fill.

Context {A : Type}.
Implicit Types c : list (option A).

Lemma ffill_from_length (last : option A) c :
  length (ffill_from last c) = length c.
Proof.
  revert last; induction c as [ | [x | ] c IH]; intros last; cbn; auto.
Qed.

Lemma bfill_length c : length (bfill c) = length c.
Proof.
  induction c as [ | [x | ] c IH]; cbn; auto.
Qed.

Lemma fill_length c : length (fill c) = length c.
Proof. unfold fill, ffill. rewrite bfill_length. apply ffill_from_length. Qed.

(** A column without a gap is left as it is. *)
Lemma ffill_from_no_missing (last : option A) c :
  no_missing c = true -> ffill_from last c = c.
Proof.
  revert last; induction c as [ | [x | ] c IH]; intros last H; cbn in *.
  - reflexivity.
  - rewrite IH; auto.
  - discriminate.
Qed.

Lemma bfill_no_missing c : no_missing c = true -> bfill c = c.
Proof.
  induction c as [ | [x | ] c IH]; intros H; cbn in *.
  - reflexivity.
  - rewrite IH; auto.
  - discriminate.
Qed.

Lemma fill_no_missing c : no_missing c = true -> fill c = c.
Proof.
  intros H. unfold fill, ffill.
  rewrite ffill_from_no_missing by exact H. apply bfill_no_missing, H.
Qed.

(** Once a value has been seen, the forward fill leaves no gap. *)
Lemma ffill_from_some (x : A) c : no_missing (ffill_from (Some x) c) = true.
Proof.
  unfold no_missing.
  revert x; induction c as [ | [y | ] c IH]; intros x; cbn; auto.
Qed.

(** The gaps a forward fill leaves are all at the start, and the backward
    fill closes them from the first value. *)
Lemma fill_total c : has_value c = true -> no_missing (fill c) = true.
Proof.
  unfold fill, ffill. induction c as [ | [x | ] c IH]; intros H.
  - discriminate.
  - cbn [ffill_from bfill]. rewrite bfill_no_missing by apply ffill_from_some.
    cbn. apply ffill_from_some.
  - cbn in H. specialize (IH H). cbn [ffill_from bfill].
    cbn [no_missing forallb]. fold (no_missing (bfill (ffill_from None c))).
    rewrite IH, andb_true_r.
    destruct c as [ | v c]; [discriminate | ].
    destruct v as [y | ]; cbn [ffill_from bfill first_cell] in *.
    + reflexivity.
    + cbn [no_missing forallb] in IH. apply andb_true_iff in IH. tauto.
Qed.

(** A column with no value stays empty of values. *)
Lemma ffill_from_none c : has_value c = false -> ffill_from None c = c.
Proof.
  induction c as [ | [x | ] c IH]; intros H; cbn in *.
  - reflexivity.
  - discriminate.
  - rewrite IH; auto.
Qed.

Lemma bfill_none c : has_value c = false -> bfill c = c.
Proof.
  induction c as [ | [x | ] c IH]; intros H; cbn in *.
  - reflexivity.
  - discriminate.
  - rewrite IH by exact H. destruct c as [ | [y | ] c]; cbn in *; congruence.
Qed.

Lemma fill_none c : has_value c = false -> fill c = c.
Proof.
  intros H. unfold fill, ffill. rewrite ffill_from_none by exact H.
  apply bfill_none, H.
Qed.

(** Neither fill touches a cell that has a value. *)
Lemma ffill_from_keeps (last : option A) c (i : nat) (v : A) :
  nth_error c i = Some (Some v) -> nth_error (ffill_from last c) i = Some (Some v).
Proof.
  revert last i; induction c as [ | [x | ] c IH]; intros last [ | i] H; cbn in *;
    try discriminate; auto.
Qed.

Lemma bfill_keeps c (i : nat) (v : A) :
  nth_error c i = Some (Some v) -> nth_error (bfill c) i = Some (Some v).
Proof.
  revert i; induction c as [ | [x | ] c IH]; intros [ | i] H; cbn in *;
    try discriminate; auto.
Qed.

Lemma fill_keeps c (i : nat) (v : A) :
  nth_error c i = Some (Some v) -> nth_error (fill c) i = Some (Some v).
Proof.
  intros H. unfold fill, ffill. apply bfill_keeps, ffill_from_keeps, H.
Qed.

Lemma no_missing_has_value c :
  no_missing c = true -> c <> [] -> has_value c = true.
Proof.
  destruct c as [ | [x | ] c]; cbn; intros H Hne; congruence.
Qed.

Lemma no_missing_nth c (i : nat) :
  no_missing c = true -> (i < length c)%nat -> exists v, nth_error c i = Some (Some v).
Proof.
  revert i; induction c as [ | [x | ] c IH]; intros i H Hi; cbn in *;
    [lia | | discriminate].
  destruct i as [ | i]; cbn; [eauto | apply IH; [exact H | lia]].
Qed.

End Fill.

(* ------------------------------------------------------------------ *)
(** * Columns by name *)

Lemma distinct_NoDup (l : list string) : distinct l = true -> NoDup l.
Proof.
  induction l as [ | x l IH]; cbn; intros H; constructor.
  - apply andb_true_iff in H. destruct H as [H _].
    apply negb_true_iff in H. intros Hin.
    assert (existsb (String.eqb x) l = true); [ | congruence].
    apply existsb_exists. exists x. split; [exact Hin | apply String.eqb_refl].
  - apply IH. apply andb_true_iff in H. tauto.
Qed.

Lemma names_app (a b : list (string * column)) :
  names (a ++ b) = (names a ++ names b)%list.
Proof. apply map_app. Qed.

Lemma names_map_values (f : column -> column) (cols : list (string * column)) :
  names (map (fun nc => (fst nc, f (snd nc))) cols) = names cols.
Proof. unfold names. rewrite map_map. reflexivity. Qed.

Lemma get_column_map_values (f : column -> column) (name : string) (cols : list (string * column)) :
  get_column name (map (fun nc => (fst nc, f (snd nc))) cols)
  = option_map f (get_column name cols).
Proof.
  induction cols as [ | [n c] cols IH]; cbn; [reflexivity | ].
  destruct (String.eqb n name); [reflexivity | exact IH].
Qed.

Lemma get_column_app_some (name : string) (a b : list (string * column)) (x : column) :
  get_column name a = Some x -> get_column name (a ++ b) = Some x.
Proof.
  induction a as [ | [n c] a IH]; cbn; [discriminate | ].
  destruct (String.eqb n name); auto.
Qed.

Lemma get_column_app_none (name : string) (a b : list (string * column)) :
  ~ In name (names a) -> get_column name (a ++ b) = get_column name b.
Proof.
  induction a as [ | [n c] a IH]; cbn; [reflexivity | ]. intros H.
  destruct (String.eqb_spec n name) as [-> | Hne]; [tauto | ]. apply IH. tauto.
Qed.

Lemma get_column_In (name : string) (x : column) (cols : list (string * column)) :
  NoDup (names cols) -> In (name, x) cols -> get_column name cols = Some x.
Proof.
  induction cols as [ | [n c] cols IH]; cbn; [tauto | ]. intros Hnd Hin.
  apply NoDup_cons_iff in Hnd. destruct Hnd as [Hn Hnd].
  destruct Hin as [Heq | Hin].
  - injection Heq as -> ->. rewrite String.eqb_refl. reflexivity.
  - destruct (String.eqb_spec n name) as [-> | Hne]; [ | auto].
    exfalso. apply Hn. change (In (fst (name, x)) (names cols)).
    apply in_map, Hin.
Qed.

Lemma get_column_some_In (name : string) (x : column) (cols : list (string * column)) :
  get_column name cols = Some x -> In (name, x) cols.
Proof.
  induction cols as [ | [n c] cols IH]; cbn; [discriminate | ].
  destruct (String.eqb_spec n name) as [-> | Hne]; intros H.
  - injection H as ->. left. reflexivity.
  - right. auto.
Qed.

Lemma set_column_fresh (name : string) (c : column) (cols : list (string * column)) :
  ~ In name (names cols) -> set_column name c cols = (cols ++ [(name, c)])%list.
Proof.
  induction cols as [ | [n c'] cols IH]; cbn; [reflexivity | ]. intros H.
  destruct (String.eqb_spec n name) as [-> | Hne]; [tauto | ].
  rewrite IH by tauto. reflexivity.
Qed.

(** ** The loop of lines 80-83 when no derived name is taken *)

Section Derived.

Variable sqrtQ : Q -> Q.

Lemma names_derived (nc : string * column) :
  names (derived sqrtQ nc) = derived_names (fst nc).
Proof. reflexivity. Qed.

Lemma names_flat_map_derived (cols : list (string * column)) :
  names (flat_map (derived sqrtQ) cols) = flat_map derived_names (names cols).
Proof.
  induction cols as [ | nc cols IH]; [reflexivity | ].
  cbn [flat_map]. rewrite names_app, IH. reflexivity.
Qed.

Lemma add_features_append (cols : list (string * column)) (col : string) (x : column) :
  get_column col cols = Some x ->
  ~ In (lag1_name col) (names cols) ->
  ~ In (rolling_mean_name col) (names cols ++ [lag1_name col]) ->
  ~ In (rolling_std_name col) (names cols ++ [lag1_name col; rolling_mean_name col]) ->
  add_features sqrtQ cols col = (cols ++ derived sqrtQ (col, x))%list.
Proof.
  intros Hget H1 H2 H3. unfold add_features, col_values.
  rewrite Hget, (set_column_fresh _ _ cols H1).
  rewrite (get_column_app_some col cols _ x Hget).
  rewrite (set_column_fresh (rolling_mean_name col)) by (rewrite names_app; exact H2).
  rewrite (get_column_app_some col _ _ x (get_column_app_some col cols _ x Hget)).
  rewrite (set_column_fresh (rolling_std_name col))
    by (rewrite !names_app, <- app_assoc; exact H3).
  rewrite <- !app_assoc. reflexivity.
Qed.

Lemma fold_add_features (base : list (string * column)) :
  NoDup (names base ++ flat_map derived_names (names base)) ->
  forall todo done : list (string * column),
    base = (done ++ todo)%list ->
    fold_left (add_features sqrtQ) (names todo) (base ++ flat_map (derived sqrtQ) done)
    = (base ++ flat_map (derived sqrtQ) base)%list.
Proof.
  intros Hnd todo. induction todo as [ | [col x] todo IH]; intros done Hbase.
  - rewrite app_nil_r in Hbase. subst done. reflexivity.
  - cbn [names map fst fold_left].
    assert (Hnb : NoDup (names base)) by (apply NoDup_app_remove_r in Hnd; exact Hnd).
    assert (Hin : In (col, x) base) by (rewrite Hbase; apply in_elt).
    pose proof (get_column_In col x base Hnb Hin) as Hget.
    assert (Hshape : (names base ++ flat_map derived_names (names base))%list
                     = ((names base ++ flat_map derived_names (names done))
                          ++ lag1_name col :: rolling_mean_name col :: rolling_std_name col
                          :: flat_map derived_names (names todo))%list).
    { rewrite Hbase at 2. rewrite names_app, flat_map_app, <- app_assoc. reflexivity. }
    rewrite Hshape in Hnd.
    set (X := (names base ++ flat_map derived_names (names done))%list) in *.
    assert (HX : names (base ++ flat_map (derived sqrtQ) done) = X)
      by (rewrite names_app, names_flat_map_derived; reflexivity).
    rewrite (add_features_append _ col x).
    + rewrite <- app_assoc.
      replace (flat_map (derived sqrtQ) done ++ derived sqrtQ (col, x))%list
        with (flat_map (derived sqrtQ) (done ++ [(col, x)])%list)
        by (rewrite flat_map_app; cbn [flat_map]; rewrite app_nil_r; reflexivity).
      apply IH. rewrite Hbase, <- app_assoc. reflexivity.
    + apply get_column_app_some, Hget.
    + rewrite HX. intros Hc. apply (NoDup_remove_2 _ _ _ Hnd).
      apply in_or_app. left. exact Hc.
    + rewrite HX. intros Hc.
      change (X ++ lag1_name col :: rolling_mean_name col :: ?t)%list
        with (X ++ [lag1_name col] ++ rolling_mean_name col :: t)%list in Hnd.
      rewrite app_assoc in Hnd.
      apply (NoDup_remove_2 _ _ _ Hnd). apply in_or_app. left. exact Hc.
    + rewrite HX. intros Hc.
      change (X ++ lag1_name col :: rolling_mean_name col :: rolling_std_name col :: ?t)%list
        with (X ++ [lag1_name col; rolling_mean_name col] ++ rolling_std_name col :: t)%list
        in Hnd.
      rewrite app_assoc in Hnd.
      apply (NoDup_remove_2 _ _ _ Hnd). apply in_or_app. left. exact Hc.
Qed.

(** With fresh names the loop appends, for every column it started with
    and in their order, the lag, the rolling mean and the rolling
    standard deviation of that column. *)
Lemma add_lag_rolling_columns (df : DataFrame) :
  NoDup (names (columns df) ++ flat_map derived_names (names (columns df))) ->
  columns (add_lag_rolling sqrtQ df)
  = (columns df ++ flat_map (derived sqrtQ) (columns df))%list.
Proof.
  intros Hnd. unfold add_lag_rolling, lag_sources. cbn [columns].
  pose proof (fold_add_features (columns df) Hnd (columns df) [] eq_refl) as H.
  cbn [flat_map] in H. rewrite app_nil_r in H. exact H.
Qed.

End Derived.

(* ------------------------------------------------------------------ *)
(** * The stages, one by one *)

(** ** Row selection *)

Lemma select_length_eq {A B : Type} (mask : list bool) (l1 : list A) (l2 : list B) :
  length l1 = length l2 -> length (select mask l1) = length (select mask l2).
Proof.
  revert l1 l2; induction mask as [ | b mask IH]; intros [ | x l1] [ | y l2] H;
    cbn in *; try reflexivity; try discriminate.
  destruct b; cbn; auto.
Qed.




(** ** Frame shapes *)

Lemma rectangular_spec (df : DataFrame) :
  rectangular df = true <->
  forall nc, In nc (columns df) -> length (snd nc) = length (dates df).
Proof.
  unfold rectangular. rewrite forallb_forall.
  split; intros H nc Hin; specialize (H nc Hin); [apply Nat.eqb_eq | apply Nat.eqb_eq]; exact H.
Qed.

Lemma complete_spec (df : DataFrame) :
  complete df = true <->
  no_missing (dates df) = true /\
  forall nc, In nc (columns df) -> no_missing (snd nc) = true.
Proof.
  unfold complete. rewrite andb_true_iff, forallb_forall. reflexivity.
Qed.

Lemma every_column_has_value_spec (df : DataFrame) :
  every_column_has_value df = true <->
  has_value (dates df) = true /\
  forall nc, In nc (columns df) -> has_value (snd nc) = true.
Proof.
  unfold every_column_has_value. rewrite andb_true_iff, forallb_forall. reflexivity.
Qed.

Lemma in_map_values (f : column -> column) (cols : list (string * column)) (nc : string * column) :
  In nc (map (fun nc => (fst nc, f (snd nc))) cols) <->
  exists c, In (fst nc, c) cols /\ snd nc = f c.
Proof.
  rewrite in_map_iff. split.
  - intros ([n c] & <- & Hin). exists c. split; [exact Hin | reflexivity].
  - intros (c & Hin & Heq). exists (fst nc, c). destruct nc as [n c']. cbn in *.
    subst c'. split; [reflexivity | exact Hin].
Qed.

(** ** The outlier filter keeps the shape *)

Lemma remove_outliers_names (df : DataFrame) :
  names (columns (remove_outliers df)) = names (columns df).
Proof. apply names_map_values. Qed.

Lemma remove_outliers_rectangular (df : DataFrame) :
  rectangular df = true -> rectangular (remove_outliers df) = true.
Proof.
  rewrite !rectangular_spec. intros H nc Hin. cbn [remove_outliers columns dates] in *.
  apply in_map_values in Hin. destruct Hin as (c & Hin & ->).
  apply select_length_eq. exact (H _ Hin).
Qed.

(** ** The fill *)

Lemma fillna_names (df : DataFrame) : names (columns (fillna df)) = names (columns df).
Proof. apply names_map_values. Qed.


Lemma fillna_rectangular (df : DataFrame) :
  rectangular df = true -> rectangular (fillna df) = true.
Proof.
  rewrite !rectangular_spec. intros H nc Hin. cbn [fillna columns dates] in *.
  apply in_map_values in Hin. destruct Hin as (c & Hin & ->).
  rewrite (fill_length c), (fill_length (dates df)). exact (H _ Hin).
Qed.

Lemma fillna_complete (df : DataFrame) :
  every_column_has_value df = true -> complete (fillna df) = true.
Proof.
  rewrite every_column_has_value_spec, complete_spec. intros [Hd Hc].
  cbn [fillna columns dates]. split.
  - apply fill_total, Hd.
  - intros nc Hin. apply in_map_values in Hin. destruct Hin as (c & Hin & ->).
    apply fill_total. exact (Hc _ Hin).
Qed.

Lemma fillna_id (df : DataFrame) : complete df = true -> fillna df = df.
Proof.
  rewrite complete_spec. intros [Hd Hc]. destruct df as [d cols]. unfold fillna.
  cbn [dates columns] in *. rewrite (fill_no_missing d Hd). f_equal.
  rewrite <- (map_id cols) at 2. apply map_ext_in. intros [n c] Hin.
  cbn [fst snd]. rewrite (fill_no_missing c); [reflexivity | exact (Hc _ Hin)].
Qed.

(** ** The calendar channels *)

Lemma dt_length (f : Timestamp -> Z) (d : list (option Timestamp)) :
  length (dt f d) = length d.
Proof. apply length_map. Qed.

Lemma dt_no_missing (f : Timestamp -> Z) (d : list (option Timestamp)) :
  no_missing d = true -> no_missing (dt f d) = true.
Proof.
  unfold no_missing, dt. induction d as [ | [t | ] d IH]; cbn; auto.
Qed.

(** With fresh names the four channels are appended, in the order of the
    assignments. *)
Lemma add_time_features_columns (df : DataFrame) :
  NoDup (names (columns df) ++ calendar_names) ->
  columns (add_time_features df)
  = (columns df ++ [("day_of_week"%string, dt dayofweek (dates df));
                    ("day_of_month"%string, dt ts_day (dates df));
                    ("month"%string, dt ts_month (dates df));
                    ("hour"%string, dt ts_hour (dates df))])%list.
Proof.
  intros Hnd. unfold add_time_features, calendar_names in *. cbn [columns dates].
  set (X := names (columns df)) in *.
  rewrite (set_column_fresh "day_of_week").
  2:{ intros Hc. apply (NoDup_remove_2 X _ _ Hnd). apply in_or_app. left. exact Hc. }
  rewrite (set_column_fresh "day_of_month").
  2:{ rewrite names_app. fold X. intros Hc.
      change (X ++ "day_of_week"%string :: "day_of_month"%string :: ?t)%list
        with (X ++ ["day_of_week"%string] ++ "day_of_month"%string :: t)%list in Hnd.
      rewrite app_assoc in Hnd.
      apply (NoDup_remove_2 _ _ _ Hnd). apply in_or_app. left. exact Hc. }
  rewrite (set_column_fresh "month").
  2:{ rewrite !names_app. fold X. rewrite <- app_assoc. intros Hc.
      change (X ++ "day_of_week"%string :: "day_of_month"%string :: "month"%string :: ?t)%list
        with (X ++ ["day_of_week"%string; "day_of_month"%string] ++ "month"%string :: t)%list
        in Hnd.
      rewrite app_assoc in Hnd.
      apply (NoDup_remove_2 _ _ _ Hnd). apply in_or_app. left. exact Hc. }
  rewrite (set_column_fresh "hour").
  2:{ rewrite !names_app. fold X. rewrite <- !app_assoc. intros Hc.
      change (X ++ "day_of_week"%string :: "day_of_month"%string :: "month"%string
                :: "hour"%string :: ?t)%list
        with (X ++ ["day_of_week"%string; "day_of_month"%string; "month"%string]
                ++ "hour"%string :: t)%list in Hnd.
      rewrite app_assoc in Hnd.
      apply (NoDup_remove_2 _ _ _ Hnd). apply in_or_app. left. exact Hc. }
  rewrite <- !app_assoc. reflexivity.
Qed.

(** ** The robust scaler *)

Lemma transform_fit (X : list column) :
  RobustScaler.transform (RobustScaler.fit X) X
  = map RobustScaler.scale_column X.
Proof.
  induction X as [ | c X IH]; cbn; [reflexivity | ]. f_equal. exact IH.
Qed.

(** Every column the frame has at line 71 is replaced by its transform under
    its own fitted pair; names and order are kept. *)
Lemma robust_scale_columns (df : DataFrame) :
  columns (robust_scale df)
  = map (fun nc => (fst nc, RobustScaler.scale_column (snd nc))) (columns df).
Proof.
  unfold robust_scale, RobustScaler.fit_transform, names. cbn [columns].
  rewrite transform_fit. induction (columns df) as [ | [n c] cols IH]; cbn; [reflexivity | ].
  f_equal. exact IH.
Qed.


Lemma insert_sorted_nonempty (x : Q) (l : list Q) : insert_sorted x l <> [].
Proof. destruct l as [ | y l]; cbn; [discriminate | ]. destruct (Qle_bool x y); discriminate. Qed.

Lemma quantile_present (q : Q) (c : column) :
  has_value c = true -> exists v, quantile q c = Some v.
Proof.
  intros H. unfold quantile.
  assert (Hs : sort (present c) <> []).
  { induction c as [ | [x | ] c IH]; cbn in *.
    - discriminate.
    - apply insert_sorted_nonempty.
    - apply IH, H. }
  destruct (sort (present c)) as [ | a0 s]; [congruence | eauto].
Qed.


Lemma scale_column_no_missing (c : column) :
  no_missing c = true -> no_missing (RobustScaler.scale_column c) = true.
Proof.
  intros H. unfold RobustScaler.scale_column. destruct c as [ | v c]; [reflexivity | ].
  assert (Hv : has_value (v :: c) = true) by (apply no_missing_has_value; [exact H | discriminate]).
  unfold RobustScaler.fit_column.
  destruct (quantile_present (1 # 2) _ Hv) as [m ->].
  destruct (quantile_present (3 # 4) _ Hv) as [b ->].
  destruct (quantile_present (1 # 4) _ Hv) as [a ->].
  cbn [cell_map2 RobustScaler.handle_zeros_in_scale].
  set (s := if Qltb (b - a) (10 * (1 # 2 ^ 52)) then Some 1%Q else Some (b - a)%Q).
  assert (Hs : exists s', s = Some s') by (subst s; destruct (Qltb _ _); eauto).
  destruct Hs as [s' ->].
  unfold RobustScaler.transform_column, no_missing in *. cbn [fst snd].
  rewrite forallb_forall in *. intros w Hw. apply in_map_iff in Hw.
  destruct Hw as (x & <- & Hx). specialize (H x Hx). destruct x; [reflexivity | discriminate].
Qed.

Lemma scale_column_length (c : column) : length (RobustScaler.scale_column c) = length c.
Proof. apply length_map. Qed.

(** ** Lag and rolling channels, cell by cell *)

Lemma has_value_nth {A : Type} (c : list (option A)) (i : nat) (v : A) :
  nth_error c i = Some (Some v) -> has_value c = true.
Proof.
  intros H. unfold has_value. apply existsb_exists. exists (Some v).
  split; [eapply nth_error_In, H | reflexivity].
Qed.

Lemma shift1_length (x : column) : length (shift1 x) = length x.
Proof.
  destruct x as [ | v x]; [reflexivity | ].
  unfold shift1. cbn [length]. rewrite removelast_firstn_len, length_firstn. cbn [length]. lia.
Qed.

(** Row [i + 1] of the lag channel is row [i] of the column. *)
Lemma shift1_nth (x : column) (i : nat) :
  (S i < length x)%nat -> nth_error (shift1 x) (S i) = nth_error x i.
Proof.
  intros H. destruct x as [ | v x]; [cbn in H; lia | ].
  unfold shift1. cbn [nth_error]. rewrite removelast_firstn_len, nth_error_firstn.
  destruct (Nat.ltb_spec i (Nat.pred (length (v :: x)))); [reflexivity | lia].
Qed.

Lemma rolling_length (w : nat) (stat : list Q -> Q) (x : column) :
  length (rolling w stat x) = length x.
Proof. unfold rolling. rewrite length_map. apply length_seq. Qed.

(** From row [w - 1] on, a rolling channel holds the statistic of the [w]
    rows that end at that row. *)
Lemma rolling_nth (w : nat) (stat : list Q -> Q) (x : column) (i : nat) :
  (w <= i + 1)%nat -> (i < length x)%nat ->
  nth_error (rolling w stat x) i
  = Some (option_map stat (all_present (firstn w (skipn (i + 1 - w) x)))).
Proof.
  intros Hw Hi. unfold rolling. rewrite nth_error_map, nth_error_seq.
  destruct (Nat.ltb_spec i (length x)); [ | lia]. cbn [option_map Nat.add].
  destruct (Nat.ltb_spec (i + 1) w); [lia | reflexivity].
Qed.

Lemma no_missing_firstn {A : Type} (n : nat) (c : list (option A)) :
  no_missing c = true -> no_missing (firstn n c) = true.
Proof.
  unfold no_missing. rewrite !forallb_forall. intros H v Hv.
  apply H. rewrite <- (firstn_skipn n c). apply in_or_app. left. exact Hv.
Qed.

Lemma no_missing_skipn {A : Type} (n : nat) (c : list (option A)) :
  no_missing c = true -> no_missing (skipn n c) = true.
Proof.
  unfold no_missing. rewrite !forallb_forall. intros H v Hv.
  apply H. rewrite <- (firstn_skipn n c). apply in_or_app. right. exact Hv.
Qed.

Lemma all_present_no_missing (c : column) :
  no_missing c = true -> all_present c = Some (present c).
Proof.
  induction c as [ | [v | ] c IH]; cbn; intros H.
  - reflexivity.
  - rewrite IH by exact H. reflexivity.
  - discriminate.
Qed.

Lemma rolling_nth_no_missing (w : nat) (stat : list Q -> Q) (x : column) (i : nat) :
  no_missing x = true ->
  (w <= i + 1)%nat -> (i < length x)%nat ->
  nth_error (rolling w stat x) i
  = Some (Some (stat (present (firstn w (skipn (i + 1 - w) x))))).
Proof.
  intros Hx Hw Hi. rewrite rolling_nth by assumption.
  rewrite all_present_no_missing; [reflexivity | ].
  apply no_missing_firstn, no_missing_skipn, Hx.
Qed.

(* ------------------------------------------------------------------ *)
(** * The pipeline as a whole *)

Lemma fresh_names_base (raw : DataFrame) :
  fresh_names raw = true -> NoDup (names (columns raw) ++ calendar_names).
Proof.
  intros H. apply distinct_NoDup in H. apply NoDup_app_remove_r in H. exact H.
Qed.

Lemma filtered_names (raw : DataFrame) :
  names (columns (filtered raw)) = names (columns raw).
Proof. unfold filtered. rewrite fillna_names. apply remove_outliers_names. Qed.

Lemma augmented_names (raw : DataFrame) :
  fresh_names raw = true ->
  names (columns (augmented raw)) = (names (columns raw) ++ calendar_names)%list.
Proof.
  intros H. unfold augmented. rewrite add_time_features_columns.
  - rewrite names_app, filtered_names. reflexivity.
  - rewrite filtered_names. apply fresh_names_base, H.
Qed.

Lemma scaled_names (raw : DataFrame) :
  names (columns (scaled raw)) = names (columns (augmented raw)).
Proof. unfold scaled. rewrite robust_scale_columns. apply names_map_values. Qed.

Lemma scaled_dates (raw : DataFrame) : dates (scaled raw) = dates (filtered raw).
Proof. reflexivity. Qed.

Lemma filtered_rectangular (raw : DataFrame) :
  rectangular raw = true -> rectangular (filtered raw) = true.
Proof. intros H. apply fillna_rectangular, remove_outliers_rectangular, H. Qed.

Lemma augmented_rectangular (raw : DataFrame) :
  fresh_names raw = true -> rectangular raw = true -> rectangular (augmented raw) = true.
Proof.
  intros Hf Hr. apply filtered_rectangular in Hr. revert Hr.
  rewrite !rectangular_spec. intros Hr nc Hin. unfold augmented in *.
  rewrite add_time_features_columns in Hin
    by (rewrite filtered_names; apply fresh_names_base, Hf).
  cbn [add_time_features dates].
  apply in_app_or in Hin. destruct Hin as [Hin | Hin]; [exact (Hr _ Hin) | ].
  cbn in Hin. destruct Hin as [<- | [<- | [<- | [<- | []]]]]; apply dt_length.
Qed.

Lemma scaled_rectangular (raw : DataFrame) :
  fresh_names raw = true -> rectangular raw = true -> rectangular (scaled raw) = true.
Proof.
  intros Hf Hr. pose proof (augmented_rectangular raw Hf Hr) as Ha. revert Ha.
  rewrite !rectangular_spec. intros Ha nc Hin. unfold scaled in *.
  rewrite robust_scale_columns in Hin. apply in_map_values in Hin.
  destruct Hin as (c & Hin & ->). rewrite scale_column_length.
  exact (Ha _ Hin).
Qed.

Lemma augmented_complete (raw : DataFrame) :
  fresh_names raw = true -> complete (filtered raw) = true -> complete (augmented raw) = true.
Proof.
  intros Hf. rewrite !complete_spec. intros [Hd Hc]. unfold augmented.
  split; [exact Hd | ]. intros nc Hin.
  rewrite add_time_features_columns in Hin
    by (rewrite filtered_names; apply fresh_names_base, Hf).
  apply in_app_or in Hin. destruct Hin as [Hin | Hin]; [exact (Hc _ Hin) | ].
  cbn in Hin. destruct Hin as [<- | [<- | [<- | [<- | []]]]]; apply dt_no_missing, Hd.
Qed.

Lemma scaled_complete (raw : DataFrame) :
  fresh_names raw = true -> complete (filtered raw) = true -> complete (scaled raw) = true.
Proof.
  intros Hf Hc. pose proof (augmented_complete raw Hf Hc) as Ha. revert Ha.
  rewrite !complete_spec. intros [Hd Ha]. unfold scaled.
  split; [exact Hd | ]. intros nc Hin.
  rewrite robust_scale_columns in Hin. apply in_map_values in Hin.
  destruct Hin as (c & Hin & ->). apply scale_column_no_missing. exact (Ha _ Hin).
Qed.

Section Whole.

Variable sqrtQ : Q -> Q.

(** The final frame, for fresh names: the scaled columns, then the three
    channels derived from each of them, every column filled. *)
Lemma preprocess_columns (raw : DataFrame) :
  fresh_names raw = true ->
  columns (preprocess sqrtQ raw)
  = map (fun nc => (fst nc, fill (snd nc)))
        (columns (scaled raw) ++ flat_map (derived sqrtQ) (columns (scaled raw))).
Proof.
  intros Hf. unfold preprocess, fillna. cbn [columns].
  rewrite add_lag_rolling_columns; [reflexivity | ].
  rewrite scaled_names, (augmented_names raw Hf).
  apply distinct_NoDup, Hf.
Qed.


Lemma preprocess_dates (raw : DataFrame) :
  dates (preprocess sqrtQ raw) = fill (dates (filtered raw)).
Proof. reflexivity. Qed.


(** A scaled column keeps its place and, when it has no gap, its cells. *)
Lemma preprocess_base_column (raw : DataFrame) (col : string) (x : column) :
  fresh_names raw = true ->
  get_column col (columns (scaled raw)) = Some x ->
  get_column col (columns (preprocess sqrtQ raw)) = Some (fill x).
Proof.
  intros Hf Hget. rewrite (preprocess_columns raw Hf), get_column_map_values.
  rewrite (get_column_app_some col _ _ x Hget). reflexivity.
Qed.

Lemma get_column_derived (cols : list (string * column)) (col name : string) (x : column) :
  NoDup (flat_map derived_names (names cols)) ->
  In (col, x) cols ->
  In name (derived_names col) ->
  get_column name (flat_map (derived sqrtQ) cols)
  = get_column name (derived sqrtQ (col, x)).
Proof.
  induction cols as [ | [n c] cols IH]; cbn [flat_map names map fst];
    intros Hnd Hin Hname; [destruct Hin | ].
  destruct Hin as [Heq | Hin].
  - injection Heq as -> ->.
    assert (Hs : exists y, get_column name (derived sqrtQ (col, x)) = Some y).
    { cbn in Hname. destruct Hname as [<- | [<- | [<- | []]]]; cbn;
        rewrite ?String.eqb_refl; repeat (destruct (String.eqb _ _)); eauto. }
    destruct Hs as [y Hy]. rewrite Hy. apply get_column_app_some, Hy.
  - rewrite get_column_app_none.
    + apply IH; [eapply NoDup_app_remove_l, Hnd | exact Hin | exact Hname].
    + rewrite names_derived. cbn [fst]. intros Hc.
      assert (Hin' : In name (flat_map derived_names (names cols))).
      { apply in_flat_map. exists col. split; [ | exact Hname].
        change col with (fst (col, x)). apply in_map, Hin. }
      clear IH. induction (derived_names n) as [ | a l IHl]; [destruct Hc | ].
      cbn [app] in Hnd. apply NoDup_cons_iff in Hnd. destruct Hnd as [Ha Hnd].
      destruct Hc as [-> | Hc]; [ | exact (IHl Hnd Hc)].
      apply Ha. apply in_or_app. right. exact Hin'.
Qed.

End Whole.

(* ------------------------------------------------------------------ *)
(** * The windowed dataset (section 4.5 of the specification) *)

(** Every sample of a dataset is a full window: its start is a valid row
    index and its context and target have the lengths asked for. *)
Lemma ForecastDFDataset_samples (context_length prediction_length : Z) (segment : DataFrame)
      (w : WindowSample) :
  0 <= context_length -> 0 <= prediction_length ->
  In w (ForecastDFDataset context_length prediction_length segment) ->
  len (context w) = context_length /\ len (target w) = prediction_length.
Proof.
  intros Hc Hp Hin. unfold ForecastDFDataset in Hin. apply in_map_iff in Hin.
  destruct Hin as (i & <- & Hi). apply window_starts_spec in Hi.
  unfold window_at, len in *. cbn [context target iloc dates].
  set (l := dates segment) in *.
  rewrite !slice_middle by lia. rewrite !length_firstn, !length_skipn. lia.
Qed.

(** C1. The WindowedDataset of a segment has
    max(0, segment_length - context_length - prediction_length + 1) samples;
    a segment shorter than context_length + prediction_length gives the empty
    dataset, which is a value and not an error. *)
Theorem window_count (context_length prediction_length : Z) (segment : DataFrame) :
  Z.of_nat (length (ForecastDFDataset context_length prediction_length segment))
  = Z.max 0 (len segment - context_length - prediction_length + 1)
  /\ (len segment < context_length + prediction_length ->
      ForecastDFDataset context_length prediction_length segment = []).
Proof.
  unfold ForecastDFDataset. split.
  - rewrite length_map. apply window_starts_length.
  - intros Hshort. unfold window_starts.
    replace (Z.to_nat (len segment - context_length - prediction_length + 1)) with 0%nat by lia.
    reflexivity.
Qed.

(* ------------------------------------------------------------------ *)
(** * The chronological split *)

(** C2, as stated, fails at 90 rows: the product [90 * 0.7] rounds to the
    double just below 63, so the training size is 62 and not
    floor(0.7 * 90) = 63. *)
Lemma num_train_90 : num_train 90 = Some 62 /\ num_train 90 <> Some (7 * 90 / 10).
Proof. split; [vm_compute; reflexivity | vm_compute; discriminate]. Qed.

Lemma split_ranges_some (n : Z) (tr va te : Z * Z) :
  split_ranges n = Some (tr, va, te) ->
  exists n_train n_test,
    num_train n = Some n_train /\ num_test n = Some n_test /\
    tr = (0, n_train) /\
    va = (n_train, n_train + num_valid n n_train n_test) /\
    te = (n_train + num_valid n n_train n_test, n).
Proof.
  unfold split_ranges. destruct (num_train n) as [a | ]; [ | discriminate].
  destruct (num_test n) as [b | ]; [ | discriminate].
  intros H. injection H as <- <- <-. exists a, b. repeat split; reflexivity.
Qed.

(** C2, as the script computes it.  For a row count [n >= 0] the sizes are
    num_train = int(n * 0.7) and num_test = int(n * 0.2), the products being
    rounded to binary64 and then truncated, and
    num_valid = n - num_train - num_test.  They are defined for every [n]
    below 2^1022, none is negative, they add up to [n], and the three ranges
    [0, num_train), [num_train, num_train + num_valid),
    [num_train + num_valid, n) follow each other without a gap or an
    overlap and cover [0, n).  Up to 2^49 rows num_train is floor(0.7 n) or
    one less and num_test is floor(0.2 n) or one less. *)
Theorem split_ranges_partition (n : Z) :
  0 <= n ->
  (n < 2 ^ 1022 -> exists r, split_ranges n = Some r) /\
  (forall tr va te : Z * Z,
     split_ranges n = Some (tr, va, te) ->
     exists n_train n_test,
       let n_valid := num_valid n n_train n_test in
       num_train n = Some n_train /\ num_test n = Some n_test /\
       tr = (0, n_train) /\
       va = (n_train, n_train + n_valid) /\
       te = (n_train + n_valid, n) /\
       0 <= n_train /\ 0 <= n_valid /\ 0 <= n_test /\
       n_train + n_valid + n_test = n /\
       (forall i, 0 <= i < n <-> in_range tr i \/ in_range va i \/ in_range te i) /\
       (forall i, ~ (in_range tr i /\ in_range va i) /\
                  ~ (in_range tr i /\ in_range te i) /\
                  ~ (in_range va i /\ in_range te i)) /\
       (n <= 2 ^ 49 ->
        7 * n / 10 - 1 <= n_train <= 7 * n / 10 /\ n / 5 - 1 <= n_test <= n / 5)).
Proof.
  intros Hn. split.
  - intros Hlt. unfold split_ranges.
    destruct (num_train_total n ltac:(lia)) as [a ->].
    destruct (num_test_total n ltac:(lia)) as [b ->]. eauto.
  - intros tr va te Hs.
    destruct (split_ranges_some n tr va te Hs) as (a & b & Ha & Hb & -> & -> & ->).
    exists a, b. cbv zeta.
    destruct (num_train_test_bounds n a b Hn Ha Hb) as (H1 & H2 & H3).
    unfold num_valid, in_range. cbn [fst snd].
    repeat split; try lia; try assumption.
    + apply (num_train_near_floor n a); [lia | exact Ha].
    + apply (num_train_near_floor n a); [lia | exact Ha].
    + apply (num_test_near_floor n b); [lia | exact Hb].
    + apply (num_test_near_floor n b); [lia | exact Hb].
Qed.

Lemma split_ranges_partition_witness :
  0 <= 90 /\
  (90 < 2 ^ 1022 -> exists r, split_ranges 90 = Some r) /\
  (forall tr va te : Z * Z,
     split_ranges 90 = Some (tr, va, te) ->
     exists n_train n_test,
       let n_valid := num_valid 90 n_train n_test in
       num_train 90 = Some n_train /\ num_test 90 = Some n_test /\
       tr = (0, n_train) /\
       va = (n_train, n_train + n_valid) /\
       te = (n_train + n_valid, 90) /\
       0 <= n_train /\ 0 <= n_valid /\ 0 <= n_test /\
       n_train + n_valid + n_test = 90 /\
       (forall i, 0 <= i < 90 <-> in_range tr i \/ in_range va i \/ in_range te i) /\
       (forall i, ~ (in_range tr i /\ in_range va i) /\
                  ~ (in_range tr i /\ in_range te i) /\
                  ~ (in_range va i /\ in_range te i)) /\
       (90 <= 2 ^ 49 ->
        7 * 90 / 10 - 1 <= n_train <= 7 * 90 / 10 /\ 90 / 5 - 1 <= n_test <= 90 / 5)).
Proof.
  split; [lia | apply (split_ranges_partition 90); lia].
Defined.

(** The frames of the split are the slices of those ranges: put end to end
    they give back every column, the timestamps included. *)
Lemma split_rows (df : DataFrame) (s : Split) :
  split df = Some s ->
  exists n_train n_test,
    num_train (len df) = Some n_train /\ num_test (len df) = Some n_test /\
    0 <= n_train /\ n_train <= len df - n_test /\ 0 <= n_test /\
    train_dataset s = iloc None (Some n_train) df /\
    valid_dataset s = iloc (Some n_train) (Some (len df - n_test)) df /\
    test_dataset s = iloc (Some (len df - n_test)) None df /\
    (dates (train_dataset s) ++ dates (valid_dataset s) ++ dates (test_dataset s))%list
    = dates df /\
    len (train_dataset s) = n_train /\
    len (valid_dataset s) = len df - n_train - n_test /\
    len (test_dataset s) = n_test.
Proof.
  unfold split. destruct (num_train (len df)) as [a | ] eqn:Ha; [ | discriminate].
  destruct (num_test (len df)) as [b | ] eqn:Hb; [ | discriminate].
  intros H. injection H as <-. exists a, b.
  assert (Hn : 0 <= len df) by (unfold len; lia).
  destruct (num_train_test_bounds (len df) a b Hn Ha Hb) as (H1 & H2 & H3).
  unfold num_valid. replace (a + (len df - a - b)) with (len df - b) by lia.
  cbn [train_dataset valid_dataset test_dataset].
  destruct (slice_partition (dates df) a (len df - b) ltac:(lia) ltac:(unfold len; lia))
    as (Hcat & L1 & L2 & L3).
  unfold len in *. cbn [iloc dates].
  repeat split; try assumption; try lia.
Qed.

(* ------------------------------------------------------------------ *)
(** * The outlier filter *)

Lemma Qltb_lt (x y : Q) : Qltb x y = true <-> (x < y)%Q.
Proof.
  unfold Qltb. rewrite negb_true_iff. split.
  - intros H. apply Qnot_le_lt. intros Hle. apply Qle_bool_iff in Hle. congruence.
  - intros H. destruct (Qle_bool y x) eqn:E; [ | reflexivity].
    apply Qle_bool_iff in E. apply Qlt_not_le in H. contradiction.
Qed.

Lemma Qltb_ge (x y : Q) : Qltb x y = false <-> (y <= x)%Q.
Proof.
  unfold Qltb. rewrite negb_false_iff. apply Qle_bool_iff.
Qed.

Lemma is_outlier_missing (lo hi : cell) : is_outlier lo hi None = false.
Proof. unfold is_outlier, cell_ltb. destruct hi; reflexivity. Qed.

Lemma is_outlier_present (lo hi x : Q) :
  is_outlier (Some lo) (Some hi) (Some x) = false <-> (lo <= x <= hi)%Q.
Proof.
  unfold is_outlier, cell_ltb. rewrite orb_false_iff, !Qltb_ge. reflexivity.
Qed.








(** C6, as stated, fails on [flat_frame]: the interquartile range of the
    channel is zero, and its last row is dropped for its value in that very
    channel. *)
Lemma zero_iqr_drops_row :
  (exists q, IQR (col_values "OT" (columns flat_frame)) = Some q /\ q == 0) /\
  is_outlier (lower_bound (col_values "OT" (columns flat_frame)))
             (upper_bound (col_values "OT" (columns flat_frame)))
             (nth 7 (col_values "OT" (columns flat_frame)) None) = true /\
  len flat_frame = 8 /\ len (remove_outliers flat_frame) = 7.
Proof.
  split; [ | split; [ | split]]; try (vm_compute; reflexivity).
  eexists. split; [vm_compute; reflexivity | reflexivity].
Qed.

(** C6, as the script behaves.  For a column whose interquartile range is
    zero both bounds are the quartile Q1 = Q3 itself: a cell of that column
    marks its row as an outlier exactly when it has a value different from
    that quartile, so rows equal to the quartile and rows with a missing cell
    are never dropped on account of that column, and every other row is. *)
Theorem zero_iqr_filter (c : column) (q : Q) :
  IQR c = Some q -> q == 0 ->
  exists a, Q1 c = Some a /\
    forall v : cell,
      is_outlier (lower_bound c) (upper_bound c) v = true <->
      exists x, v = Some x /\ ~ x == a.
Proof.
  intros Hiqr Hq. unfold lower_bound, upper_bound. rewrite Hiqr.
  unfold IQR in Hiqr.
  destruct (Q3 c) as [b | ]; [ | discriminate].
  destruct (Q1 c) as [a | ]; [ | discriminate].
  cbn [cell_map2] in *. injection Hiqr as <-.
  exists a. split; [reflexivity | ]. intros [x | ].
  - unfold is_outlier, cell_ltb. rewrite orb_true_iff, !Qltb_lt. split.
    + intros H. exists x. split; [reflexivity | ]. intros Heq. lra.
    + intros (y & Hy & Hne). injection Hy as <-.
      destruct (Qlt_le_dec x a) as [Hlt | Hge]; [left; lra | ].
      right. destruct (Qlt_le_dec a x) as [Hlt | Hle]; [lra | ].
      exfalso. apply Hne. lra.
  - rewrite is_outlier_missing. split; [discriminate | ].
    intros (x & Hx & _). discriminate.
Qed.

Lemma zero_iqr_filter_witness :
  IQR (col_values "OT" (columns flat_frame)) = Some (0 # 16) /\ 0 # 16 == 0 /\
  exists a, Q1 (col_values "OT" (columns flat_frame)) = Some a /\
    forall v : cell,
      is_outlier (lower_bound (col_values "OT" (columns flat_frame)))
                 (upper_bound (col_values "OT" (columns flat_frame))) v = true <->
      exists x, v = Some x /\ ~ x == a.
Proof.
  split; [vm_compute; reflexivity | split; [reflexivity | ]].
  apply (zero_iqr_filter (col_values "OT" (columns flat_frame)) (0 # 16));
    [vm_compute; reflexivity | reflexivity].
Defined.

(* ------------------------------------------------------------------ *)
(** * Imputation *)

(** C8, as stated, fails on [gap_frame]: every column of the input has a
    value, but the only value of HUFL sits in the row that OT makes an
    outlier, and after the filter the fill has nothing to fill HUFL with. *)
Lemma value_lost_to_filter :
  every_column_has_value gap_frame = true /\
  col_values "HUFL" (columns (filtered gap_frame)) = [None; None; None; None] /\
  complete (filtered gap_frame) = false.
Proof. repeat split; vm_compute; reflexivity. Qed.

Section Imputation.

Variable sqrtQ : Q -> Q.

Lemma derived_fill_no_missing (nc d : string * column) :
  no_missing (snd nc) = true ->
  (5 <= length (snd nc))%nat ->
  In d (derived sqrtQ nc) ->
  no_missing (fill (snd d)) = true.
Proof.
  intros Hx Hlen Hin. destruct nc as [col x]. cbn [fst snd] in *.
  destruct (no_missing_nth x 0 Hx ltac:(lia)) as [v Hv].
  unfold derived in Hin. cbn [fst snd] in Hin.
  destruct Hin as [<- | [<- | [<- | []]]]; cbn [snd]; apply fill_total.
  - apply (has_value_nth _ 1 v). rewrite shift1_nth by lia. exact Hv.
  - unfold rolling_mean, window.
    eapply (has_value_nth _ 4). apply rolling_nth_no_missing; [exact Hx | lia | lia].
  - unfold rolling_std, window.
    eapply (has_value_nth _ 4). apply rolling_nth_no_missing; [exact Hx | lia | lia].
Qed.

(** When at least five rows are left and the first fill has closed every
    gap, the second fill closes those the lag and rolling channels open. *)
Lemma preprocess_complete (raw : DataFrame) :
  fresh_names raw = true ->
  rectangular raw = true ->
  complete (filtered raw) = true ->
  5 <= len (filtered raw) ->
  complete (preprocess sqrtQ raw) = true.
Proof.
  intros Hf Hr Hc Hlen.
  pose proof (scaled_complete raw Hf Hc) as Hsc.
  pose proof (scaled_rectangular raw Hf Hr) as Hsr.
  rewrite complete_spec in Hsc. destruct Hsc as [Hd Hcols].
  rewrite rectangular_spec in Hsr. rewrite scaled_dates in Hsr, Hd.
  apply complete_spec. split.
  - rewrite preprocess_dates, (fill_no_missing _ Hd). exact Hd.
  - intros nc Hin. rewrite (preprocess_columns sqrtQ raw Hf) in Hin.
    apply in_map_values in Hin. destruct Hin as (c & Hin & ->).
    apply in_app_or in Hin. destruct Hin as [Hin | Hin].
    + rewrite (fill_no_missing c); exact (Hcols _ Hin).
    + apply in_flat_map in Hin. destruct Hin as (src & Hsrc & Hd').
      apply (derived_fill_no_missing src (fst nc, c)); [exact (Hcols _ Hsrc) | | exact Hd'].
      rewrite (Hsr _ Hsrc). unfold len in Hlen. lia.
Qed.

End Imputation.

(** C8, as the script behaves.  Whenever every column still has a value
    after the outlier rows are removed, the forward fill followed by the
    backward fill leaves no missing cell.  If moreover at least five rows are
    left (and the names of the derived channels are fresh), the same fill
    after the lag and rolling channels leaves no missing cell in the final
    table. *)
Theorem imputation_totality (sqrtQ : Q -> Q) (raw : DataFrame) :
  every_column_has_value (remove_outliers raw) = true ->
  complete (filtered raw) = true /\
  (fresh_names raw = true -> rectangular raw = true -> 5 <= len (filtered raw) ->
   complete (preprocess sqrtQ raw) = true).
Proof.
  intros Hv. pose proof (fillna_complete _ Hv) as Hc. split; [exact Hc | ].
  intros Hf Hr Hlen. apply preprocess_complete; assumption.
Qed.

Lemma imputation_totality_witness :
  every_column_has_value (remove_outliers ramp_frame) = true /\
  complete (filtered ramp_frame) = true /\
  (fresh_names ramp_frame = true -> rectangular ramp_frame = true ->
   5 <= len (filtered ramp_frame) ->
   complete (preprocess sqrt_fixed ramp_frame) = true).
Proof.
  split; [vm_compute; reflexivity | ].
  apply (imputation_totality sqrt_fixed ramp_frame). vm_compute; reflexivity.
Defined.

(* ------------------------------------------------------------------ *)
(** * Derived channels across the split *)

Lemma append_inj_l (s a b : string) : (s ++ a)%string = (s ++ b)%string -> a = b.
Proof.
  induction s as [ | ch s IH]; cbn; intros H; [exact H | ].
  injection H as H. exact (IH H).
Qed.

Lemma derived_names_distinct (col : string) : NoDup (derived_names col).
Proof.
  unfold derived_names, lag1_name, rolling_mean_name, rolling_std_name.
  repeat constructor; cbn; intros H;
    repeat (destruct H as [H | H]; [apply append_inj_l in H; discriminate | ]);
    exact H.
Qed.

Lemma NoDup_app_disjoint {A : Type} (l1 l2 : list A) (a : A) :
  NoDup (l1 ++ l2) -> In a l1 -> ~ In a l2.
Proof.
  induction l1 as [ | x l1 IH]; cbn; [tauto | ]. intros Hnd Hin Hin2.
  apply NoDup_cons_iff in Hnd. destruct Hnd as [Hx Hnd].
  destruct Hin as [-> | Hin]; [ | exact (IH Hnd Hin Hin2)].
  apply Hx. apply in_or_app. right. exact Hin2.
Qed.


Lemma slice_nil {A : Type} (a b : option Z) : slice a b (@nil A) = [].
Proof. unfold slice. rewrite skipn_nil. apply firstn_nil. Qed.

Lemma col_values_iloc (name : string) (a b : option Z) (df : DataFrame) :
  col_values name (columns (iloc a b df)) = slice a b (col_values name (columns df)).
Proof.
  unfold col_values, iloc. cbn [columns]. rewrite get_column_map_values.
  destruct (get_column name (columns df)); [reflexivity | ]. cbn. symmetry. apply slice_nil.
Qed.

Section CrossSplit.

Variable sqrtQ : Q -> Q.

(** The columns of the final frame that come from one scaled column. *)
Lemma preprocess_channels (raw : DataFrame) (col : string) (x : column) :
  fresh_names raw = true ->
  In (col, x) (columns (scaled raw)) ->
  col_values col (columns (preprocess sqrtQ raw)) = fill x /\
  col_values (lag1_name col) (columns (preprocess sqrtQ raw)) = fill (shift1 x) /\
  col_values (rolling_mean_name col) (columns (preprocess sqrtQ raw))
  = fill (rolling_mean x) /\
  col_values (rolling_std_name col) (columns (preprocess sqrtQ raw))
  = fill (rolling_std sqrtQ x).
Proof.
  intros Hf Hin.
  assert (Hnd : NoDup (names (columns (scaled raw))
                       ++ flat_map derived_names (names (columns (scaled raw)))))
    by (rewrite scaled_names, (augmented_names raw Hf); apply distinct_NoDup, Hf).
  assert (Hnb : NoDup (names (columns (scaled raw)))) by (eapply NoDup_app_remove_r, Hnd).
  assert (Hnf : NoDup (flat_map derived_names (names (columns (scaled raw)))))
    by (eapply NoDup_app_remove_l, Hnd).
  pose proof (get_column_In col x _ Hnb Hin) as Hget.
  assert (Hder : forall name, In name (derived_names col) ->
            get_column name (columns (preprocess sqrtQ raw))
            = option_map fill (get_column name (derived sqrtQ (col, x)))).
  { intros name Hname. rewrite (preprocess_columns sqrtQ raw Hf), get_column_map_values.
    f_equal. rewrite get_column_app_none.
    - apply get_column_derived; assumption.
    - intros Hc. apply (NoDup_app_disjoint _ _ name Hnd Hc).
      apply in_flat_map. exists col. split; [ | exact Hname].
      change col with (fst (col, x)). apply in_map, Hin. }
  pose proof (derived_names_distinct col) as Hdd.
  unfold derived_names in Hdd.
  apply NoDup_cons_iff in Hdd. destruct Hdd as [Hl Hdd].
  apply NoDup_cons_iff in Hdd. destruct Hdd as [Hm _].
  assert (E1 : String.eqb (lag1_name col) (rolling_mean_name col) = false)
    by (apply String.eqb_neq; intros E; apply Hl; left; symmetry; exact E).
  assert (E2 : String.eqb (lag1_name col) (rolling_std_name col) = false)
    by (apply String.eqb_neq; intros E; apply Hl; right; left; symmetry; exact E).
  assert (E3 : String.eqb (rolling_mean_name col) (rolling_std_name col) = false)
    by (apply String.eqb_neq; intros E; apply Hm; left; symmetry; exact E).
  unfold col_values. repeat split.
  - rewrite (preprocess_base_column sqrtQ raw col x Hf Hget). reflexivity.
  - rewrite Hder by (left; reflexivity). unfold derived. cbn [get_column fst snd].
    rewrite String.eqb_refl. reflexivity.
  - rewrite Hder by (right; left; reflexivity). unfold derived. cbn [get_column fst snd].
    rewrite E1, String.eqb_refl. reflexivity.
  - rewrite Hder by (right; right; left; reflexivity). unfold derived.
    cbn [get_column fst snd]. rewrite E2, E3, String.eqb_refl. reflexivity.
Qed.

End CrossSplit.




Lemma window_count_witness :
  len short_segment < 3 + 2 /\
  Z.of_nat (length (ForecastDFDataset 3 2 short_segment))
  = Z.max 0 (len short_segment - 3 - 2 + 1) /\
  ForecastDFDataset 3 2 short_segment = [].
Proof.
  split; [vm_compute; reflexivity | ].
  destruct (window_count 3 2 short_segment) as [Hcount Hshort].
  split; [exact Hcount | apply Hshort; vm_compute; reflexivity].
Defined.



(* ------------------------------------------------------------------ *)
(** * The scaler and the order of the stages *)





(* ------------------------------------------------------------------ *)
(** * Which columns get lag and rolling channels *)




(* ------------------------------------------------------------------ *)
(** * The evaluation *)





(* ------------------------------------------------------------------ *)
(** * Worked examples *)

(** The header of ETTh1 leaves every derived name free. *)
Example etth1_names_fresh :
  fresh_names {| dates := [];
                 columns := map (fun n => (n, []))
                                ["HUFL"; "HULL"; "MUFL"; "MULL"; "LUFL"; "LULL"; "OT"]%string |}
  = true.
Proof. vm_compute. reflexivity. Qed.

(** A thousand rows split into 700, 100 and 200. *)
Example split_ranges_1000 :
  split_ranges 1000 = Some ((0, 700), (700, 800), (800, 1000)).
Proof. vm_compute. reflexivity. Qed.

(** With a context of 50 rows and a horizon of 10, segments of 700, 100 and
    200 rows give 641, 41 and 141 windows, and one of 59 rows gives none. *)
Example window_counts :
  map (fun n => length (ForecastDFDataset 50 10 (blank_rows n))) [700; 100; 200; 59]%nat
  = [641; 41; 141; 0]%nat.
Proof. vm_compute. reflexivity. Qed.

(** Ninety rows split into 62, 10 and 18. *)
Example split_ranges_90 :
  split_ranges 90 = Some ((0, 62), (62, 72), (72, 90)).
Proof. vm_compute. reflexivity. Qed.

(** In binary64 the quotient 1.0 / 3.0 of the evaluation example is the
    double nearest to one third, [0x1.5555555555555p-2]. *)
Example one_third_binary64 :
  SFdiv Float64.prec Float64.emax
        (binary_normalize Float64.prec Float64.emax 1 0 false)
        (binary_normalize Float64.prec Float64.emax 3 0 false)
  = S754_finite false 6004799503160661 (-54).
Proof. vm_compute. reflexivity. Qed.

(** The literals are the correctly rounded quotients 7/10 and 2/10. *)
Example literals_are_nearest :
  SFdiv Float64.prec Float64.emax
        (binary_normalize Float64.prec Float64.emax 7 0 false)
        (binary_normalize Float64.prec Float64.emax 10 0 false) = Float64.lit_0_7 /\
  SFdiv Float64.prec Float64.emax
        (binary_normalize Float64.prec Float64.emax 2 0 false)
        (binary_normalize Float64.prec Float64.emax 10 0 false) = Float64.lit_0_2.
Proof. split; vm_compute; reflexivity. Qed.

(** The scaled training rows of [ramp_frame] depend on its row 7. *)
Example ramp_training_rows :
  map (option_map Qred) (firstn 3 (col_values "OT" (columns (scaled ramp_frame))))
  = [Some (-1 # 1); Some (-7 # 9); Some (-5 # 9)] /\
  map (option_map Qred) (firstn 3 (col_values "OT" (columns (scaled ramp_frame'))))
  = [Some (-6 # 7); Some (-2 # 3); Some (-10 # 21)].
Proof. split; vm_compute; reflexivity. Qed.

(* ------------------------------------------------------------------ *)
(** * Order statistics *)

Lemma insert_sorted_In (x y : Q) (l : list Q) :
  In y (insert_sorted x l) <-> x = y \/ In y l.
Proof.
  induction l as [ | z l IH]; cbn; [tauto | ].
  destruct (Qle_bool x z); cbn; [tauto | ]. rewrite IH. tauto.
Qed.

Lemma insert_sorted_ascending (x : Q) (l : list Q) :
  ascending l -> ascending (insert_sorted x l).
Proof.
  induction l as [ | z l IH]; cbn [insert_sorted ascending]; intros H.
  - split; [intros y [] | exact I].
  - destruct H as [Hz Hl]. destruct (Qle_bool x z) eqn:E; cbn [ascending].
    + apply Qle_bool_iff in E. split; [ | split; assumption].
      intros y [<- | Hy]; [exact E | ]. apply Qle_trans with z; [exact E | exact (Hz y Hy)].
    + assert (Hzx : (z <= x)%Q).
      { apply Qlt_le_weak, Qnot_le_lt. intros Hle. apply Qle_bool_iff in Hle. congruence. }
      split; [ | exact (IH Hl)].
      intros y Hy. apply insert_sorted_In in Hy. destruct Hy as [<- | Hy]; [exact Hzx | exact (Hz y Hy)].
Qed.

Lemma sort_ascending (l : list Q) : ascending (sort l).
Proof.
  induction l as [ | x l IH]; [exact I | ].
  change (sort (x :: l)) with (insert_sorted x (sort l)). apply insert_sorted_ascending, IH.
Qed.

Lemma insert_sorted_length (x : Q) (l : list Q) :
  length (insert_sorted x l) = S (length l).
Proof.
  induction l as [ | z l IH]; cbn; [reflexivity | ].
  destruct (Qle_bool x z); cbn; [reflexivity | rewrite IH; reflexivity].
Qed.

Lemma sort_length (l : list Q) : length (sort l) = length l.
Proof.
  induction l as [ | x l IH]; [reflexivity | ].
  change (sort (x :: l)) with (insert_sorted x (sort l)).
  rewrite insert_sorted_length, IH. reflexivity.
Qed.

Lemma ascending_nth (l : list Q) (d : Q) (i j : nat) :
  ascending l -> (i <= j)%nat -> (j < length l)%nat -> (nth i l d <= nth j l d)%Q.
Proof.
  revert i j; induction l as [ | x l IH]; intros i j Hl Hij Hj; cbn in Hj; [lia | ].
  destruct Hl as [Hx Hl]. destruct i as [ | i], j as [ | j]; cbn [nth]; try lia.
  - apply Qle_refl.
  - apply Hx, nth_In. lia.
  - apply IH; [exact Hl | lia | lia].
Qed.

(** On a sorted list the interpolated value does not decrease with the
    position. *)
Lemma interpolate_mono (s : list Q) (a0 pos pos' : Q) :
  ascending s -> s <> [] ->
  (0 <= pos)%Q -> (pos <= pos')%Q -> (pos' <= inject_Z (Z.of_nat (length s - 1)))%Q ->
  (interpolate s a0 pos <= interpolate s a0 pos')%Q.
Proof.
  intros Hs Hne H0 Hle Hmax. unfold interpolate.
  assert (Hn : (0 < length s)%nat) by (destruct s; [congruence | cbn; lia]).
  assert (Bound : forall p, (0 <= p)%Q -> (p <= inject_Z (Z.of_nat (length s - 1)))%Q ->
            0 <= Qfloor p <= Z.of_nat (length s - 1) /\
            (0 <= p - inject_Z (Qfloor p))%Q /\ (p - inject_Z (Qfloor p) <= 1)%Q).
  { intros p Hp0 Hp1. repeat split.
    - rewrite <- (Qfloor_Z 0). apply Qfloor_resp_le, Hp0.
    - rewrite <- (Qfloor_Z (Z.of_nat (length s - 1))). apply Qfloor_resp_le, Hp1.
    - pose proof (Qfloor_le p). lra.
    - pose proof (Qlt_floor p) as Hlt. rewrite inject_Z_plus in Hlt.
      change (inject_Z 1) with 1%Q in Hlt. lra. }
  destruct (Bound pos H0 ltac:(lra)) as ([F0 F1] & Fr0 & Fr1).
  destruct (Bound pos' ltac:(lra) Hmax) as ([F0' F1'] & Fr0' & Fr1').
  assert (Hfl : Qfloor pos <= Qfloor pos') by (apply Qfloor_resp_le, Hle).
  set (lo := Z.to_nat (Qfloor pos)) in *. set (lo' := Z.to_nat (Qfloor pos')) in *.
  assert (Step : forall k, (k < length s)%nat ->
            (nth k s a0 <= nth (S k) s (nth k s a0))%Q).
  { intros k Hk. destruct (Nat.ltb_spec (S k) (length s)) as [Hlt | Hge].
    - rewrite (nth_indep s (nth k s a0) a0 Hlt). apply ascending_nth; [exact Hs | lia | exact Hlt].
    - rewrite (nth_overflow s (nth k s a0)) by lia. apply Qle_refl. }
  pose proof (Step lo ltac:(lia)) as Hab. pose proof (Step lo' ltac:(lia)) as Hab'.
  set (a := nth lo s a0) in *. set (b := nth (S lo) s a) in *.
  set (a' := nth lo' s a0) in *. set (b' := nth (S lo') s a') in *.
  set (f := (pos - inject_Z (Qfloor pos))%Q) in *.
  set (f' := (pos' - inject_Z (Qfloor pos'))%Q) in *.
  destruct (Z.eq_dec (Qfloor pos) (Qfloor pos')) as [Heq | Hneq].
  - assert (lo = lo') by (subst lo lo'; congruence).
    assert (Hf : (f <= f')%Q) by (subst f f'; rewrite Heq; lra).
    subst a' b'. replace lo' with lo in * by assumption. fold a. fold b.
    nra.
  - assert (Hlt : (S lo <= lo')%nat) by (subst lo lo'; lia).
    assert (Hb : (b <= a')%Q).
    { subst b a'. rewrite (nth_indep s a a0) by lia.
      apply ascending_nth; [exact Hs | exact Hlt | lia]. }
    assert ((a + (b - a) * f <= b)%Q) by nra.
    assert ((a' <= a' + (b' - a') * f')%Q) by nra.
    lra.
Qed.

Lemma quantile_interpolate (q : Q) (c : column) (a0 : Q) (rest : list Q) :
  sort (present c) = a0 :: rest ->
  quantile q c
  = Some (interpolate (a0 :: rest) a0 (q * inject_Z (Z.of_nat (length (a0 :: rest) - 1)))).
Proof. intros H. unfold quantile. rewrite H. reflexivity. Qed.

Lemma position_bounds (q q' n : Q) :
  (0 <= q)%Q -> (q <= q')%Q -> (q' <= 1)%Q -> (0 <= n)%Q ->
  (0 <= q * n)%Q /\ (q * n <= q' * n)%Q /\ (q' * n <= n)%Q.
Proof. intros. repeat split; nra. Qed.

(** A higher quantile of a column is never below a lower one. *)
Lemma quantile_mono (q q' : Q) (c : column) (v v' : Q) :
  (0 <= q)%Q -> (q <= q')%Q -> (q' <= 1)%Q ->
  quantile q c = Some v -> quantile q' c = Some v' -> (v <= v')%Q.
Proof.
  intros H0 Hle H1 Hv Hv'.
  destruct (sort (present c)) as [ | a0 rest] eqn:Hs.
  - unfold quantile in Hv. rewrite Hs in Hv. discriminate.
  - rewrite (quantile_interpolate q c a0 rest Hs) in Hv.
    rewrite (quantile_interpolate q' c a0 rest Hs) in Hv'.
    injection Hv as <-. injection Hv' as <-.
    assert (Hn : (0 <= inject_Z (Z.of_nat (length (a0 :: rest) - 1)))%Q).
    { change 0%Q with (inject_Z 0). rewrite <- Zle_Qle. lia. }
    destruct (position_bounds q q' _ H0 Hle H1 Hn) as (P0 & P1 & P2).
    apply interpolate_mono; try assumption; [rewrite <- Hs; apply sort_ascending | discriminate].
Qed.

(** X1. A column that has a value has its five statistics in order:
    lower bound <= Q1 <= median <= Q3 <= upper bound; so the interquartile
    range is not negative and no value between the quartiles is ever marked
    as an outlier. *)
Theorem quartiles_ordered (c : column) :
  has_value c = true ->
  exists lo q1 m q3 hi : Q,
    lower_bound c = Some lo /\ Q1 c = Some q1 /\ quantile (1 # 2) c = Some m /\
    Q3 c = Some q3 /\ upper_bound c = Some hi /\
    (lo <= q1)%Q /\ (q1 <= m)%Q /\ (m <= q3)%Q /\ (q3 <= hi)%Q /\
    (forall x : Q, (q1 <= x)%Q -> (x <= q3)%Q ->
                   is_outlier (lower_bound c) (upper_bound c) (Some x) = false).
Proof.
  intros Hv.
  destruct (quantile_present (1 # 4) c Hv) as [q1 H1].
  destruct (quantile_present (1 # 2) c Hv) as [m Hm].
  destruct (quantile_present (3 # 4) c Hv) as [q3 H3].
  pose proof (quantile_mono (1 # 4) (1 # 2) c q1 m ltac:(lra) ltac:(lra) ltac:(lra) H1 Hm) as L1.
  pose proof (quantile_mono (1 # 2) (3 # 4) c m q3 ltac:(lra) ltac:(lra) ltac:(lra) Hm H3) as L2.
  exists (q1 - (3 # 2) * (q3 - q1))%Q, q1, m, q3, (q3 + (3 # 2) * (q3 - q1))%Q.
  assert (Hlo : lower_bound c = Some (q1 - (3 # 2) * (q3 - q1))%Q)
    by (unfold lower_bound, IQR, Q1, Q3; rewrite H1, H3; reflexivity).
  assert (Hhi : upper_bound c = Some (q3 + (3 # 2) * (q3 - q1))%Q)
    by (unfold upper_bound, IQR, Q1, Q3; rewrite H1, H3; reflexivity).
  repeat split; try assumption; try lra.
  intros x Hx1 Hx3. rewrite Hlo, Hhi. apply is_outlier_present. lra.
Qed.

Lemma quartiles_ordered_witness :
  has_value (values [1; 1; 1; 1; 1; 1; 1; 5]) = true /\
  exists lo q1 m q3 hi : Q,
    lower_bound (values [1; 1; 1; 1; 1; 1; 1; 5]) = Some lo /\
    Q1 (values [1; 1; 1; 1; 1; 1; 1; 5]) = Some q1 /\
    quantile (1 # 2) (values [1; 1; 1; 1; 1; 1; 1; 5]) = Some m /\
    Q3 (values [1; 1; 1; 1; 1; 1; 1; 5]) = Some q3 /\
    upper_bound (values [1; 1; 1; 1; 1; 1; 1; 5]) = Some hi /\
    (lo <= q1)%Q /\ (q1 <= m)%Q /\ (m <= q3)%Q /\ (q3 <= hi)%Q /\
    (forall x : Q, (q1 <= x)%Q -> (x <= q3)%Q ->
                   is_outlier (lower_bound (values [1; 1; 1; 1; 1; 1; 1; 5]))
                              (upper_bound (values [1; 1; 1; 1; 1; 1; 1; 5])) (Some x) = false).
Proof.
  split; [reflexivity | ].
  apply (quartiles_ordered (values [1; 1; 1; 1; 1; 1; 1; 5])). reflexivity.
Defined.

(* ------------------------------------------------------------------ *)
(** * The robust scaler, column by column *)












(* ------------------------------------------------------------------ *)
(** * The fill, cell by cell *)

Section FillCells.

Context {A : Type}.
Implicit Types c : list (option A).

Lemma last_value_from_some (x : A) c : exists v, last_value_from (Some x) c = Some v.
Proof.
  revert x; induction c as [ | [y | ] c IH]; intros x; cbn; eauto.
Qed.

Lemma ffill_from_nth (last : option A) c (i : nat) :
  (i < length c)%nat ->
  nth_error (ffill_from last c) i = Some (last_value_from last (firstn (S i) c)).
Proof.
  revert last i; induction c as [ | [x | ] c IH]; intros last i Hi; cbn in Hi; [lia | | ].
  - destruct i as [ | i]; [reflexivity | ].
    rewrite firstn_cons. cbn [ffill_from nth_error last_value_from]. apply IH. lia.
  - destruct i as [ | i]; [reflexivity | ].
    rewrite firstn_cons. cbn [ffill_from nth_error last_value_from]. apply IH. lia.
Qed.

Lemma first_cell_bfill c : first_cell (bfill c) = first_value c.
Proof.
  induction c as [ | [x | ] c IH]; cbn; [reflexivity | reflexivity | exact IH].
Qed.

Lemma bfill_nth c (i : nat) :
  (i < length c)%nat -> nth_error (bfill c) i = Some (first_value (skipn i c)).
Proof.
  revert i; induction c as [ | [x | ] c IH]; intros i Hi; cbn in Hi; [lia | | ].
  - destruct i as [ | i]; [reflexivity | ]. cbn [bfill nth_error skipn]. apply IH. lia.
  - destruct i as [ | i].
    + cbn [bfill nth_error skipn first_value]. rewrite first_cell_bfill. reflexivity.
    + cbn [bfill nth_error skipn]. apply IH. lia.
Qed.

Lemma first_value_ffill_from_none c : first_value (ffill_from None c) = first_value c.
Proof.
  induction c as [ | [x | ] c IH]; cbn; [reflexivity | reflexivity | exact IH].
Qed.

Lemma first_value_skipn_ffill (last : option A) c (i : nat) :
  (i < length c)%nat ->
  first_value (skipn i (ffill_from last c))
  = match last_value_from last (firstn (S i) c) with
    | Some v => Some v
    | None => first_value c
    end.
Proof.
  revert last i; induction c as [ | [x | ] c IH]; intros last i Hi; cbn in Hi; [lia | | ].
  - destruct i as [ | i]; [reflexivity | ].
    rewrite firstn_cons. cbn [ffill_from skipn last_value_from]. rewrite IH by lia.
    destruct (last_value_from_some x (firstn (S i) c)) as [v ->]. reflexivity.
  - destruct i as [ | i].
    + cbn [ffill_from skipn firstn last_value_from first_value].
      destruct last as [l | ]; [reflexivity | ]. apply first_value_ffill_from_none.
    + rewrite firstn_cons. cbn [ffill_from skipn last_value_from first_value].
      apply IH. lia.
Qed.

Lemma first_value_none c : has_value c = false -> first_value c = None.
Proof.
  induction c as [ | [x | ] c IH]; cbn; intros H; [reflexivity | discriminate | auto].
Qed.

Lemma last_value_from_none c : has_value c = false -> last_value_from None c = None.
Proof.
  induction c as [ | [x | ] c IH]; cbn; intros H; [reflexivity | discriminate | auto].
Qed.

Lemma first_value_at c (k : nat) (v : A) :
  (forall j, (j < k)%nat -> nth_error c j = Some None) ->
  nth_error c k = Some (Some v) ->
  first_value c = Some v.
Proof.
  revert k; induction c as [ | [x | ] c IH]; intros k Hbefore Hk.
  - destruct k; discriminate.
  - destruct k as [ | k]; [cbn in *; congruence | ].
    specialize (Hbefore 0%nat ltac:(lia)). discriminate.
  - destruct k as [ | k]; [discriminate | ]. cbn [first_value].
    apply (IH k); [ | exact Hk]. intros j Hj. apply (Hbefore (S j)). lia.
Qed.

Lemma has_value_firstn_none c (n : nat) :
  (forall j, (j < n)%nat -> (j < length c)%nat -> nth_error c j = Some None) ->
  has_value (firstn n c) = false.
Proof.
  revert n; induction c as [ | v c IH]; intros n H.
  - rewrite firstn_nil. reflexivity.
  - destruct n as [ | n]; [reflexivity | ].
    pose proof (H 0%nat ltac:(lia) ltac:(cbn; lia)) as H0. cbn in H0. injection H0 as ->.
    cbn [firstn has_value existsb orb]. apply IH.
    intros j Hj Hl. apply (H (S j)); cbn; lia.
Qed.

End FillCells.

Lemma fill_nth_error {A : Type} (c : list (option A)) (i : nat) :
  (i < length c)%nat ->
  nth_error (fill c) i
  = Some (match last_value_from None (firstn (S i) c) with
          | Some v => Some v
          | None => first_value c
          end).
Proof.
  intros Hi. unfold fill, ffill.
  rewrite bfill_nth by (rewrite ffill_from_length; exact Hi).
  rewrite first_value_skipn_ffill by exact Hi. reflexivity.
Qed.

(** X4. The two fills of lines 60-61 and 86-87, cell by cell: after them a
    cell holds the most recent value at or before its row, and when there is
    none (a gap at the start of the column) the first value after it; it is
    missing only when the whole column is. *)
Theorem fill_cell {A : Type} (c : list (option A)) (i : nat) :
  (i < length c)%nat ->
  nth_error (fill c) i
  = Some (match last_value (firstn (S i) c) with
          | Some v => Some v
          | None => first_value c
          end).
Proof.
  intros Hi. unfold fill, ffill, last_value.
  rewrite bfill_nth by (rewrite ffill_from_length; exact Hi).
  rewrite first_value_skipn_ffill by exact Hi. reflexivity.
Qed.

Lemma fill_cell_witness :
  (3 < length [None; Some 1%Q; None; None; Some 2%Q])%nat /\
  nth_error (fill [None; Some 1%Q; None; None; Some 2%Q]) 3
  = Some (match last_value (firstn 4 [None; Some 1%Q; None; None; Some 2%Q]) with
          | Some v => Some v
          | None => first_value [None; Some 1%Q; None; None; Some 2%Q]
          end).
Proof.
  split; [cbn; lia | ].
  apply (fill_cell [None; Some 1%Q; None; None; Some 2%Q] 3). cbn; lia.
Defined.

(** X5. Filling a frame a second time changes nothing, and a first fill
    changes nothing in a column that has no value at all (it stays entirely
    missing) or no gap. *)
Theorem fillna_idempotent (df : DataFrame) :
  fillna (fillna df) = fillna df /\
  (forall nc, In nc (columns df) -> has_value (snd nc) = false ->
              In nc (columns (fillna df))) /\
  (forall nc, In nc (columns df) -> no_missing (snd nc) = true ->
              In nc (columns (fillna df))).
Proof.
  assert (Idem : forall (A : Type) (c : list (option A)), fill (fill c) = fill c).
  { intros A c. destruct (has_value c) eqn:Hv.
    - apply fill_no_missing, fill_total, Hv.
    - rewrite (fill_none c Hv). apply fill_none, Hv. }
  split; [ | split].
  - unfold fillna. cbn [dates columns]. rewrite Idem, map_map. cbn [fst snd].
    f_equal. apply map_ext. intros nc. rewrite Idem. reflexivity.
  - intros [n c] Hin Hv. cbn [snd] in Hv. unfold fillna. cbn [columns].
    apply in_map_iff. exists (n, c). cbn [fst snd]. rewrite (fill_none c Hv). auto.
  - intros [n c] Hin Hv. cbn [snd] in Hv. unfold fillna. cbn [columns].
    apply in_map_iff. exists (n, c). cbn [fst snd]. rewrite (fill_no_missing c Hv). auto.
Qed.

(* ------------------------------------------------------------------ *)
(** * Lag and rolling channels: what a row depends on *)

Lemma rolling_nth_early (w : nat) (stat : list Q -> Q) (x : column) (i : nat) :
  (i + 1 < w)%nat -> (i < length x)%nat -> nth_error (rolling w stat x) i = Some None.
Proof.
  intros Hw Hi. unfold rolling. rewrite nth_error_map, nth_error_seq.
  destruct (Nat.ltb_spec i (length x)); [ | lia]. cbn [option_map Nat.add].
  destruct (Nat.ltb_spec (i + 1) w); [reflexivity | lia].
Qed.

Lemma rolling_short (w : nat) (stat : list Q -> Q) (x : column) :
  (length x < w)%nat -> rolling w stat x = repeat None (length x).
Proof.
  intros H. unfold rolling.
  assert (G : forall n s, (s + n < w)%nat ->
            map (fun i => if (i + 1 <? w)%nat then None
                          else option_map stat (all_present (firstn w (skipn (i + 1 - w) x))))
                (seq s n) = repeat None n).
  { induction n as [ | n IH]; intros s Hs; [reflexivity | ].
    cbn [seq map repeat]. destruct (Nat.ltb_spec (s + 1) w); [ | lia].
    f_equal. apply IH. lia. }
  apply G. lia.
Qed.

(** X6. Before the fill, row [i] of a lag or rolling channel is determined
    by rows 0 .. i of its column: the windows look backward only.  Two
    columns that agree up to row [i] have the same lag and the same rolling
    statistic at row [i], whatever follows. *)
Theorem derived_channels_look_backward
        (w : nat) (stat : list Q -> Q) (x y : column) (i : nat) :
  (i < length x)%nat -> (i < length y)%nat ->
  firstn (S i) x = firstn (S i) y ->
  nth_error (rolling w stat x) i = nth_error (rolling w stat y) i /\
  nth_error (shift1 x) i = nth_error (shift1 y) i.
Proof.
  intros Hx Hy Heq. split.
  - destruct (Nat.ltb_spec (i + 1) w) as [Hearly | Hlate].
    + rewrite !rolling_nth_early by assumption. reflexivity.
    + rewrite !rolling_nth by assumption.
      rewrite !firstn_skipn_comm.
      replace (i + 1 - w + w)%nat with (S i) by lia. rewrite Heq. reflexivity.
  - destruct i as [ | i].
    + destruct x, y; cbn in Hx, Hy; try lia. reflexivity.
    + rewrite !shift1_nth by assumption.
      assert (E : forall l : column, (S i < length l)%nat ->
                nth_error l i = nth_error (firstn (S (S i)) l) i).
      { intros l Hl. rewrite nth_error_firstn.
        destruct (Nat.ltb_spec i (S (S i))); [reflexivity | lia]. }
      rewrite (E x Hx), (E y Hy), Heq. reflexivity.
Qed.

Lemma derived_channels_look_backward_witness :
  (4 < length (values [1; 2; 3; 4; 5; 6]%Z))%nat /\
  (4 < length (values [1; 2; 3; 4; 5; 60; 70]%Z))%nat /\
  firstn 5 (values [1; 2; 3; 4; 5; 6]) = firstn 5 (values [1; 2; 3; 4; 5; 60; 70]) /\
  nth_error (rolling 5 mean (values [1; 2; 3; 4; 5; 6])) 4
  = nth_error (rolling 5 mean (values [1; 2; 3; 4; 5; 60; 70])) 4 /\
  nth_error (shift1 (values [1; 2; 3; 4; 5; 6])) 4
  = nth_error (shift1 (values [1; 2; 3; 4; 5; 60; 70])) 4.
Proof.
  split; [cbn; lia | ]. split; [cbn; lia | ]. split; [reflexivity | ].
  apply (derived_channels_look_backward 5 mean (values [1; 2; 3; 4; 5; 6])
           (values [1; 2; 3; 4; 5; 60; 70]) 4); [cbn; lia | cbn; lia | reflexivity].
Defined.

(** The filled rolling channel of a column without gaps: its rows 0 .. 4
    all hold the statistic of the first five rows. *)
Lemma fill_rolling_leading (stat : list Q -> Q) (x : column) (i : nat) :
  no_missing x = true -> (5 <= length x)%nat -> (i <= 4)%nat ->
  nth_error (fill (rolling window stat x)) i = Some (Some (stat (present (firstn 5 x)))).
Proof.
  intros Hx Hlen Hi.
  assert (H4 : nth_error (rolling window stat x) 4 = Some (Some (stat (present (firstn 5 x))))).
  { rewrite rolling_nth_no_missing by (try assumption; unfold window; lia). reflexivity. }
  destruct (Nat.eq_dec i 4) as [-> | Hne]; [apply fill_keeps, H4 | ].
  rewrite fill_nth_error by (rewrite rolling_length; lia).
  assert (Hearly : forall j, (j < 4)%nat -> nth_error (rolling window stat x) j = Some None)
    by (intros j Hj; apply rolling_nth_early; unfold window; lia).
  rewrite last_value_from_none.
  - rewrite (first_value_at _ 4 _ Hearly H4). reflexivity.
  - apply has_value_firstn_none. intros j Hj _. apply Hearly. lia.
Qed.

Lemma fill_shift1_first (x : column) :
  no_missing x = true -> (2 <= length x)%nat ->
  nth_error (fill (shift1 x)) 0 = nth_error x 0.
Proof.
  intros Hx Hlen. destruct (no_missing_nth x 0 Hx ltac:(lia)) as [v Hv].
  rewrite fill_nth_error by (rewrite shift1_length; lia).
  assert (H0 : nth_error (shift1 x) 0 = Some None) by (destruct x; [cbn in Hlen; lia | reflexivity]).
  assert (H1 : nth_error (shift1 x) 1 = Some (Some v)) by (rewrite shift1_nth by lia; exact Hv).
  rewrite last_value_from_none.
  - rewrite (first_value_at _ 1 v); [symmetry; exact Hv | | exact H1].
    intros j Hj. replace j with 0%nat by lia. exact H0.
  - apply has_value_firstn_none. intros j Hj _. replace j with 0%nat by lia. exact H0.
Qed.

(** X7. The backward fill of line 87 makes the first rows of the derived
    channels look ahead: in the final table rows 0 to 4 of [col_rolling_mean]
    and [col_rolling_std] all hold the statistic of rows 0 .. 4 of the scaled
    column, and row 0 of [col_lag1] holds the value of row 0 itself. *)
Theorem leading_rows_look_ahead
        (sqrtQ : Q -> Q) (raw : DataFrame) (col : string) (x : column) :
  fresh_names raw = true ->
  rectangular raw = true ->
  complete (filtered raw) = true ->
  5 <= len (filtered raw) ->
  In (col, x) (columns (scaled raw)) ->
  (forall i, (i <= 4)%nat ->
     nth_error (col_values (rolling_mean_name col) (columns (preprocess sqrtQ raw))) i
     = Some (Some (mean (present (firstn 5 x)))) /\
     nth_error (col_values (rolling_std_name col) (columns (preprocess sqrtQ raw))) i
     = Some (Some (sqrtQ (var (present (firstn 5 x)))))) /\
  nth_error (col_values (lag1_name col) (columns (preprocess sqrtQ raw))) 0 = nth_error x 0 /\
  nth_error (col_values col (columns (preprocess sqrtQ raw))) 0 = nth_error x 0.
Proof.
  intros Hf Hr Hc Hlen Hin.
  pose proof (scaled_complete raw Hf Hc) as Hsc. rewrite complete_spec in Hsc.
  pose proof (proj2 Hsc _ Hin) as Hx. cbn [snd] in Hx.
  pose proof (scaled_rectangular raw Hf Hr) as Hsr. rewrite rectangular_spec in Hsr.
  pose proof (Hsr _ Hin) as Hl. cbn [snd] in Hl. rewrite scaled_dates in Hl.
  assert (Hl5 : (5 <= length x)%nat) by (unfold len in Hlen; lia).
  destruct (preprocess_channels sqrtQ raw col x Hf Hin) as (Cb & Cl & Cm & Cs).
  rewrite Cb, Cl, Cm, Cs. split; [ | split].
  - intros i Hi. unfold rolling_mean, rolling_std.
    split; apply fill_rolling_leading; assumption.
  - apply fill_shift1_first; [exact Hx | lia].
  - rewrite (fill_no_missing x Hx). reflexivity.
Qed.

Lemma leading_rows_look_ahead_witness :
  fresh_names ramp_frame = true /\
  rectangular ramp_frame = true /\
  complete (filtered ramp_frame) = true /\
  5 <= len (filtered ramp_frame) /\
  In ("OT"%string, col_values "OT" (columns (scaled ramp_frame))) (columns (scaled ramp_frame)) /\
  (forall i, (i <= 4)%nat ->
     nth_error (col_values (rolling_mean_name "OT") (columns (preprocess sqrt_fixed ramp_frame))) i
     = Some (Some (mean (present (firstn 5 (col_values "OT" (columns (scaled ramp_frame))))))) /\
     nth_error (col_values (rolling_std_name "OT") (columns (preprocess sqrt_fixed ramp_frame))) i
     = Some (Some (sqrt_fixed
                     (var (present (firstn 5 (col_values "OT" (columns (scaled ramp_frame))))))))) /\
  nth_error (col_values (lag1_name "OT") (columns (preprocess sqrt_fixed ramp_frame))) 0
  = nth_error (col_values "OT" (columns (scaled ramp_frame))) 0 /\
  nth_error (col_values "OT" (columns (preprocess sqrt_fixed ramp_frame))) 0
  = nth_error (col_values "OT" (columns (scaled ramp_frame))) 0.
Proof.
  split; [vm_compute; reflexivity | ].
  split; [vm_compute; reflexivity | ].
  split; [vm_compute; reflexivity | ].
  split; [vm_compute; discriminate | ].
  split; [vm_compute; left; reflexivity | ].
  apply (leading_rows_look_ahead sqrt_fixed ramp_frame "OT");
    try (vm_compute; reflexivity); [vm_compute; discriminate | vm_compute; left; reflexivity].
Defined.

(** X8. With one to four rows left after the filter no rolling window is
    ever full: in the final table every rolling-mean and rolling-std channel
    is entirely missing, so the table is not free of missing cells. *)
Theorem short_table_stays_incomplete (sqrtQ : Q -> Q) (raw : DataFrame) :
  fresh_names raw = true ->
  rectangular raw = true ->
  1 <= len (filtered raw) < 5 ->
  complete (preprocess sqrtQ raw) = false /\
  (forall col x, In (col, x) (columns (scaled raw)) ->
     col_values (rolling_mean_name col) (columns (preprocess sqrtQ raw))
     = repeat None (length x) /\
     col_values (rolling_std_name col) (columns (preprocess sqrtQ raw))
     = repeat None (length x)).
Proof.
  intros Hf Hr Hlen.
  pose proof (scaled_rectangular raw Hf Hr) as Hsr. rewrite rectangular_spec in Hsr.
  assert (Hnone : forall n, has_value (@repeat (option Q) None n) = false)
    by (induction n; [reflexivity | assumption]).
  assert (Hcols : forall col x, In (col, x) (columns (scaled raw)) ->
            col_values (rolling_mean_name col) (columns (preprocess sqrtQ raw))
            = repeat None (length x) /\
            col_values (rolling_std_name col) (columns (preprocess sqrtQ raw))
            = repeat None (length x)).
  { intros col x Hin.
    pose proof (Hsr _ Hin) as Hl. cbn [snd] in Hl. rewrite scaled_dates in Hl.
    assert (Hshort : (length x < window)%nat) by (unfold len, window in *; lia).
    destruct (preprocess_channels sqrtQ raw col x Hf Hin) as (_ & _ & Cm & Cs).
    rewrite Cm, Cs. unfold rolling_mean, rolling_std.
    rewrite !rolling_short by exact Hshort.
    rewrite fill_none by apply Hnone. auto. }
  split; [ | exact Hcols].
  assert (Hhour : In "hour"%string (names (columns (scaled raw)))).
  { rewrite scaled_names, (augmented_names raw Hf). apply in_or_app. right.
    cbn. tauto. }
  apply in_map_iff in Hhour. destruct Hhour as ([col x] & Heq & Hin). cbn in Heq. subst col.
  destruct (Hcols _ _ Hin) as [Hm _].
  pose proof (Hsr _ Hin) as Hl. cbn [snd] in Hl. rewrite scaled_dates in Hl.
  assert (Hx1 : (1 <= length x)%nat) by (unfold len in Hlen; lia).
  destruct (complete (preprocess sqrtQ raw)) eqn:Hc; [exfalso | reflexivity].
  rewrite complete_spec in Hc. destruct Hc as [_ Hc].
  assert (Hinf : In (rolling_mean_name "hour", repeat None (length x))
                    (columns (preprocess sqrtQ raw))).
  { rewrite <- Hm. apply get_column_some_In. unfold col_values in Hm |- *.
    destruct (get_column (rolling_mean_name "hour") (columns (preprocess sqrtQ raw))) as [c | ];
      [reflexivity | ].
    exfalso. destruct x as [ | v x]; [cbn [length] in Hx1; lia | discriminate]. }
  specialize (Hc _ Hinf). cbn [snd] in Hc.
  destruct x as [ | v x]; [cbn [length] in Hx1; lia | ]. discriminate.
Qed.

Lemma short_table_stays_incomplete_witness :
  fresh_names short_segment = true /\
  rectangular short_segment = true /\
  1 <= len (filtered short_segment) < 5 /\
  complete (preprocess sqrt_fixed short_segment) = false /\
  (forall col x, In (col, x) (columns (scaled short_segment)) ->
     col_values (rolling_mean_name col) (columns (preprocess sqrt_fixed short_segment))
     = repeat None (length x) /\
     col_values (rolling_std_name col) (columns (preprocess sqrt_fixed short_segment))
     = repeat None (length x)).
Proof.
  split; [vm_compute; reflexivity | ].
  split; [vm_compute; reflexivity | ].
  split; [vm_compute; split; [discriminate | reflexivity] | ].
  apply (short_table_stays_incomplete sqrt_fixed short_segment);
    [vm_compute; reflexivity | vm_compute; reflexivity
     | vm_compute; split; [discriminate | reflexivity]].
Defined.

(* ------------------------------------------------------------------ *)
(** * Column assignment and the calendar channels *)

Lemma get_set_column_same (name : string) (c : column) (cols : list (string * column)) :
  get_column name (set_column name c cols) = Some c.
Proof.
  induction cols as [ | [n c'] cols IH]; cbn.
  - rewrite String.eqb_refl. reflexivity.
  - destruct (String.eqb n name) eqn:E; cbn; rewrite E; [reflexivity | exact IH].
Qed.

Lemma get_set_column_other (name other : string) (c : column) (cols : list (string * column)) :
  other <> name -> get_column other (set_column name c cols) = get_column other cols.
Proof.
  intros Hne. induction cols as [ | [n c'] cols IH]; cbn.
  - destruct (String.eqb_spec name other); [congruence | reflexivity].
  - destruct (String.eqb_spec n name) as [-> | Hn]; cbn.
    + destruct (String.eqb_spec name other); [congruence | reflexivity].
    + destruct (String.eqb n other); [reflexivity | exact IH].
Qed.

Lemma names_set_column (name : string) (c : column) (cols : list (string * column)) :
  names (set_column name c cols)
  = if existsb (String.eqb name) (names cols) then names cols
    else (names cols ++ [name])%list.
Proof.
  unfold names. induction cols as [ | [n c'] cols IH]; cbn; [reflexivity | ].
  rewrite (String.eqb_sym name n).
  destruct (String.eqb n name) eqn:E; cbn; [reflexivity | ].
  rewrite IH. destruct (existsb (String.eqb name) (map fst cols)); reflexivity.
Qed.

Lemma existsb_app_single (name n : string) (l : list string) :
  existsb (String.eqb name) (l ++ [n]) = existsb (String.eqb name) l || String.eqb name n.
Proof. rewrite existsb_app. cbn [existsb]. rewrite orb_false_r. reflexivity. Qed.

Lemma existsb_eqb_In (name : string) (l : list string) :
  existsb (String.eqb name) l = true <-> In name l.
Proof.
  rewrite existsb_exists. split.
  - intros (x & Hin & Heq). apply String.eqb_eq in Heq. subst. exact Hin.
  - intros Hin. exists name. split; [exact Hin | apply String.eqb_refl].
Qed.

(** X9. The assignment [dataset[name] = c] and the lookup [dataset[name]]:
    the lookup after the assignment gives [c]; every other column is as it
    was; a column that exists keeps its position and no column is added,
    and a new name becomes the last column. *)
Theorem set_column_get_column (name : string) (c : column) (cols : list (string * column)) :
  get_column name (set_column name c cols) = Some c /\
  (forall other, other <> name ->
     get_column other (set_column name c cols) = get_column other cols) /\
  (In name (names cols) -> names (set_column name c cols) = names cols) /\
  (~ In name (names cols) -> set_column name c cols = (cols ++ [(name, c)])%list) /\
  set_column name c (set_column name c cols) = set_column name c cols.
Proof.
  split; [apply get_set_column_same | ].
  split; [intros other; apply get_set_column_other | ].
  split; [ | split; [apply set_column_fresh | ]].
  - intros Hin. rewrite names_set_column.
    apply existsb_eqb_In in Hin. rewrite Hin. reflexivity.
  - induction cols as [ | [n c'] cols IH]; cbn.
    + rewrite String.eqb_refl. reflexivity.
    + destruct (String.eqb n name) eqn:E; cbn; rewrite E; [reflexivity | ].
      rewrite IH. reflexivity.
Qed.

Lemma dt_nth (f : Timestamp -> Z) (d : list (option Timestamp)) (i : nat) :
  nth_error (dt f d) i = option_map (option_map (fun t => inject_Z (f t))) (nth_error d i).
Proof. unfold dt. apply nth_error_map. Qed.

(** X10. Lines 64-67 without any assumption on the column names: after them
    each of the four calendar columns holds the field of the row's
    timestamp (missing where the timestamp is), whether the table already
    had a column of that name or not; all other columns and the timestamps
    are untouched, the column count grows by the number of calendar names
    that were new, and the weekday is a number from 0 to 6. *)
Theorem calendar_channels_assigned (df : DataFrame) :
  dates (add_time_features df) = dates df /\
  (get_column "day_of_week" (columns (add_time_features df)) = Some (dt dayofweek (dates df)) /\
   get_column "day_of_month" (columns (add_time_features df)) = Some (dt ts_day (dates df)) /\
   get_column "month" (columns (add_time_features df)) = Some (dt ts_month (dates df)) /\
   get_column "hour" (columns (add_time_features df)) = Some (dt ts_hour (dates df))) /\
  (forall name, ~ In name calendar_names ->
     get_column name (columns (add_time_features df)) = get_column name (columns df)) /\
  names (columns (add_time_features df))
  = (names (columns df)
     ++ filter (fun n => negb (existsb (String.eqb n) (names (columns df)))) calendar_names)%list /\
  (forall i f, nth_error (dt f (dates df)) i
               = option_map (option_map (fun t => inject_Z (f t))) (nth_error (dates df) i)) /\
  (forall t, 0 <= dayofweek t <= 6).
Proof.
  split; [reflexivity | ].
  unfold add_time_features. cbn [columns dates].
  split; [ | split; [ | split; [ | split]]].
  - repeat split.
    + rewrite !get_set_column_other by discriminate. apply get_set_column_same.
    + rewrite !get_set_column_other by discriminate. apply get_set_column_same.
    + rewrite !get_set_column_other by discriminate. apply get_set_column_same.
    + apply get_set_column_same.
  - intros name Hn. unfold calendar_names in Hn. cbn [In] in Hn.
    rewrite !get_set_column_other by (intros ->; tauto). reflexivity.
  - rewrite !names_set_column. unfold calendar_names. cbn [filter].
    set (l := names (columns df)).
    assert (P1 : String.eqb "day_of_month" "day_of_week" = false) by reflexivity.
    assert (P2 : String.eqb "month" "day_of_week" = false) by reflexivity.
    assert (P3 : String.eqb "month" "day_of_month" = false) by reflexivity.
    assert (P4 : String.eqb "hour" "day_of_week" = false) by reflexivity.
    assert (P5 : String.eqb "hour" "day_of_month" = false) by reflexivity.
    assert (P6 : String.eqb "hour" "month" = false) by reflexivity.
    destruct (existsb (String.eqb "day_of_week") l) eqn:E1;
      destruct (existsb (String.eqb "day_of_month") l) eqn:E2;
      destruct (existsb (String.eqb "month") l) eqn:E3;
      destruct (existsb (String.eqb "hour") l) eqn:E4;
      repeat (rewrite ?existsb_app_single, ?E1, ?E2, ?E3, ?E4, ?P1, ?P2, ?P3, ?P4, ?P5, ?P6;
              cbn [orb negb]);
      rewrite <- ?app_assoc, ?app_nil_r; reflexivity.
  - intros i f. apply dt_nth.
  - intros t. unfold dayofweek.
    pose proof (Z.mod_pos_bound (days_from_civil (ts_year t) (ts_month t) (ts_day t) + 3) 7
                  ltac:(lia)). lia.
Qed.

(* ------------------------------------------------------------------ *)
(** * The split: which segments can be empty, and what they hold *)

Lemma inject_Z_nonneg (n : Z) : 0 <= n -> (0 <= inject_Z n)%Q.
Proof. intros H. change 0%Q with (inject_Z 0). rewrite <- Zle_Qle. exact H. Qed.

(** X11. The sizes of lines 90-92 at the small end: the training segment
    is empty exactly below two rows, the test segment exactly below five,
    and the validation segment, which takes what the other two leave, has a
    row as soon as the table has one.  Up to [2^49] rows the validation
    segment holds at least a tenth of the rows and at most 2.1 rows more. *)
Theorem split_segment_sizes (n n_train n_test : Z) :
  0 <= n ->
  num_train n = Some n_train ->
  num_test n = Some n_test ->
  (1 <= n_train <-> 2 <= n) /\
  (1 <= n_test <-> 5 <= n) /\
  (1 <= num_valid n n_train n_test <-> 1 <= n) /\
  (n <= 2 ^ 49 -> n <= 10 * num_valid n n_train n_test <= n + 21).
Proof.
  intros Hn Htr Hte.
  destruct (int_mul_spec n 6305039478318694 (-53) Hn ltac:(cbn; lia) ltac:(lia))
    as [_ H7].
  destruct (int_mul_spec n 7205759403792794 (-55) Hn ltac:(cbn; lia) ltac:(lia))
    as [_ H2].
  destruct (H7 n_train Htr) as (Ha & Hb & Hc).
  destruct (H2 n_test Hte) as (Hd & He & Hf).
  rewrite lit_0_7_value in Hb, Hc. rewrite lit_0_2_value in He, Hf.
  assert (Hu : inject_Z (2 ^ 53) == 9007199254740992) by reflexivity.
  rewrite Hu in Hb, Hc, He, Hf.
  pose proof (inject_Z_nonneg n Hn) as Hnq.
  pose proof (inject_Z_nonneg n_train Ha) as Haq.
  pose proof (inject_Z_nonneg n_test Hd) as Hdq.
  assert (Q2Z : forall a b : Z, (inject_Z a < inject_Z b)%Q -> a < b)
    by (intros a b H; rewrite Zlt_Qlt; exact H).
  assert (Z2Q : forall a b : Z, a <= b -> (inject_Z a <= inject_Z b)%Q)
    by (intros a b H; rewrite <- Zle_Qle; exact H).
  split; [ | split; [ | split]].
  - split; intros H.
    + (* a training row needs 0.7 n to reach 1 *)
      assert (1 < n); [ | lia]. apply Q2Z.
      pose proof (Z2Q 1 n_train H) as H1. change (inject_Z 1) with 1%Q in *.
      set (a := inject_Z n_train) in *. set (x := inject_Z n) in *. lra.
    + assert (0 < n_train); [ | lia]. apply Q2Z.
      pose proof (Z2Q 2 n H) as H1. change (inject_Z 2) with 2%Q in *.
      change (inject_Z 0) with 0%Q.
      set (a := inject_Z n_train) in *. set (x := inject_Z n) in *. lra.
  - split; intros H.
    + assert (4 < n); [ | lia]. apply Q2Z.
      pose proof (Z2Q 1 n_test H) as H1. change (inject_Z 1) with 1%Q in *.
      change (inject_Z 4) with 4%Q.
      set (a := inject_Z n_test) in *. set (x := inject_Z n) in *. lra.
    + destruct (Z.eq_dec n 5) as [-> | Hne].
      * vm_compute in Hte. injection Hte as <-. lia.
      * assert (0 < n_test); [ | lia]. apply Q2Z.
        pose proof (Z2Q 6 n ltac:(lia)) as H1. change (inject_Z 6) with 6%Q in *.
        change (inject_Z 0) with 0%Q.
        set (a := inject_Z n_test) in *. set (x := inject_Z n) in *. lra.
  - unfold num_valid. split; intros H.
    + destruct (num_train_test_bounds n n_train n_test Hn Htr Hte) as (_ & _ & ?). lia.
    + assert (n_train + n_test < n); [ | lia]. apply Q2Z.
      pose proof (Z2Q 1 n H) as H1. change (inject_Z 1) with 1%Q in *.
      rewrite inject_Z_plus.
      set (a := inject_Z n_train) in *. set (b := inject_Z n_test) in *.
      set (x := inject_Z n) in *. lra.
  - intros Hle. unfold num_valid.
    pose proof (Z2Q n (2 ^ 49) Hle) as H1.
    change (inject_Z (2 ^ 49)) with 562949953421312%Q in H1.
    assert (Hlo : 10 * (n_train + n_test) < 9 * n + 1).
    { apply Q2Z. rewrite !inject_Z_plus, !inject_Z_mult, inject_Z_plus.
      change (inject_Z 10) with 10%Q. change (inject_Z 9) with 9%Q.
      change (inject_Z 1) with 1%Q.
      set (a := inject_Z n_train) in *. set (b := inject_Z n_test) in *.
      set (x := inject_Z n) in *. lra. }
    assert (Hhi : 9 * n - 22 < 10 * (n_train + n_test)).
    { apply Q2Z. rewrite inject_Z_sub, !inject_Z_mult, inject_Z_plus.
      change (inject_Z 10) with 10%Q. change (inject_Z 9) with 9%Q.
      change (inject_Z 22) with 22%Q.
      set (a := inject_Z n_train) in *. set (b := inject_Z n_test) in *.
      set (x := inject_Z n) in *. lra. }
    lia.
Qed.

Lemma split_segment_sizes_witness :
  0 <= 10 /\
  num_train 10 = Some 7 /\
  num_test 10 = Some 2 /\
  (1 <= 7 <-> 2 <= 10) /\
  (1 <= 2 <-> 5 <= 10) /\
  (1 <= num_valid 10 7 2 <-> 1 <= 10) /\
  (10 <= 2 ^ 49 -> 10 <= 10 * num_valid 10 7 2 <= 10 + 21).
Proof.
  split; [lia | ].
  split; [vm_compute; reflexivity | ].
  split; [vm_compute; reflexivity | ].
  apply (split_segment_sizes 10 7 2); [lia | vm_compute; reflexivity | vm_compute; reflexivity].
Defined.

(** X12. The three frames of the split have the columns of the table, in
    the same order; put end to end, the segments of each column give back
    that column, so no cell is lost, duplicated or moved; and each segment
    is again a rectangular table. *)
Theorem split_keeps_cells (df : DataFrame) (s : Split) :
  rectangular df = true ->
  split df = Some s ->
  names (columns (train_dataset s)) = names (columns df) /\
  names (columns (valid_dataset s)) = names (columns df) /\
  names (columns (test_dataset s)) = names (columns df) /\
  (forall name,
     (col_values name (columns (train_dataset s))
      ++ col_values name (columns (valid_dataset s))
      ++ col_values name (columns (test_dataset s)))%list
     = col_values name (columns df)) /\
  (dates (train_dataset s) ++ dates (valid_dataset s) ++ dates (test_dataset s))%list
  = dates df /\
  rectangular (train_dataset s) = true /\
  rectangular (valid_dataset s) = true /\
  rectangular (test_dataset s) = true.
Proof.
  intros Hr Hs.
  destruct (split_rows df s Hs) as (a & b & _ & _ & Ha & Hab & Hb & -> & -> & -> & Hd & _).
  assert (Hrect : forall x y, rectangular (iloc x y df) = true).
  { intros x y. apply rectangular_spec. intros nc Hin. unfold iloc in *. cbn [columns dates] in *.
    apply in_map_iff in Hin. destruct Hin as (nc' & <- & Hin'). cbn [snd].
    rewrite rectangular_spec in Hr. specialize (Hr _ Hin').
    unfold slice. rewrite !length_firstn, !length_skipn, Hr. reflexivity. }
  unfold iloc at 1 2 3. cbn [columns]. rewrite !names_map_values.
  repeat split; try apply Hrect; try exact Hd.
  intros name. rewrite !col_values_iloc.
  assert (Hlen : Z.of_nat (length (col_values name (columns df))) <= len df).
  { unfold col_values. destruct (get_column name (columns df)) as [c' | ] eqn:E.
    - apply get_column_some_In in E. rewrite rectangular_spec in Hr.
      specialize (Hr _ E). cbn [snd] in Hr. unfold len. lia.
    - cbn. unfold len. lia. }
  unfold col_values in *.
  destruct (get_column name (columns df)) as [c' | ] eqn:E.
  - apply get_column_some_In in E. rewrite rectangular_spec in Hr.
    specialize (Hr _ E). cbn [snd] in Hr.
    apply (slice_partition c' a (len df - b)); [lia | unfold len; lia].
  - rewrite !slice_nil. reflexivity.
Qed.

Lemma split_keeps_cells_witness :
  rectangular (preprocess sqrt_fixed ramp_frame) = true /\
  split (preprocess sqrt_fixed ramp_frame) = Some ramp_split /\
  names (columns (train_dataset ramp_split)) = names (columns (preprocess sqrt_fixed ramp_frame)) /\
  names (columns (valid_dataset ramp_split)) = names (columns (preprocess sqrt_fixed ramp_frame)) /\
  names (columns (test_dataset ramp_split)) = names (columns (preprocess sqrt_fixed ramp_frame)) /\
  (forall name,
     (col_values name (columns (train_dataset ramp_split))
      ++ col_values name (columns (valid_dataset ramp_split))
      ++ col_values name (columns (test_dataset ramp_split)))%list
     = col_values name (columns (preprocess sqrt_fixed ramp_frame))) /\
  (dates (train_dataset ramp_split) ++ dates (valid_dataset ramp_split)
   ++ dates (test_dataset ramp_split))%list
  = dates (preprocess sqrt_fixed ramp_frame) /\
  rectangular (train_dataset ramp_split) = true /\
  rectangular (valid_dataset ramp_split) = true /\
  rectangular (test_dataset ramp_split) = true.
Proof.
  split; [vm_compute; reflexivity | ].
  split; [vm_compute; reflexivity | ].
  apply (split_keeps_cells (preprocess sqrt_fixed ramp_frame) ramp_split);
    vm_compute; reflexivity.
Defined.

(* ------------------------------------------------------------------ *)
(** * The evaluation: sign and zero of the error *)

Lemma square_nonneg (x : Q) : (0 <= x * x)%Q.
Proof. nra. Qed.

Lemma square_zero (x : Q) : (x * x == 0 -> x == 0)%Q.
Proof. intros H. nra. Qed.





(* ------------------------------------------------------------------ *)
(** * Lag and rolling channels of a scaled column *)



Lemma all_present_length (c : column) (l : list Q) :
  all_present c = Some l -> length l = length c.
Proof.
  revert l; induction c as [ | [v | ] c IH]; intros l; cbn [all_present]; try discriminate.
  - intros H. injection H as <-. reflexivity.
  - destruct (all_present c) as [l' | ]; [ | discriminate].
    intros H. injection H as <-. cbn. f_equal. apply IH. reflexivity.
Qed.









(* ------------------------------------------------------------------ *)
(** * The outlier test does not depend on the unit of a column *)







(* ------------------------------------------------------------------ *)
(** * The final table: later rows and shape *)

(** X16. Past the leading rows the final fill changes nothing: in the final
    table row [i >= 1] of [col_lag1] is row [i - 1] of the scaled column, and
    row [i >= 4] of [col_rolling_mean] and [col_rolling_std] is the mean and
    the standard deviation of rows [i - 4 .. i] of the scaled column. *)
Theorem later_rows_look_back
        (sqrtQ : Q -> Q) (raw : DataFrame) (col : string) (x : column) (i : nat) :
  fresh_names raw = true ->
  complete (filtered raw) = true ->
  In (col, x) (columns (scaled raw)) ->
  (i < length x)%nat ->
  ((1 <= i)%nat ->
   nth_error (col_values (lag1_name col) (columns (preprocess sqrtQ raw))) i
   = nth_error x (i - 1)) /\
  ((4 <= i)%nat ->
   nth_error (col_values (rolling_mean_name col) (columns (preprocess sqrtQ raw))) i
   = Some (Some (mean (present (firstn 5 (skipn (i - 4) x))))) /\
   nth_error (col_values (rolling_std_name col) (columns (preprocess sqrtQ raw))) i
   = Some (Some (sqrtQ (var (present (firstn 5 (skipn (i - 4) x))))))).
Proof.
  intros Hf Hc Hin Hi.
  pose proof (scaled_complete raw Hf Hc) as Hsc. rewrite complete_spec in Hsc.
  pose proof (proj2 Hsc _ Hin) as Hx. cbn [snd] in Hx.
  destruct (preprocess_channels sqrtQ raw col x Hf Hin) as (_ & Cl & Cm & Cs).
  rewrite Cl, Cm, Cs. split.
  - intros H1. destruct (no_missing_nth x (i - 1) Hx ltac:(lia)) as [v Hv].
    rewrite Hv. apply fill_keeps.
    replace i with (S (i - 1)) at 1 by lia. rewrite shift1_nth by lia. exact Hv.
  - intros H4. unfold rolling_mean, rolling_std.
    split; apply fill_keeps;
      rewrite rolling_nth_no_missing by (try exact Hx; unfold window; lia);
      unfold window; replace (i + 1 - 5)%nat with (i - 4)%nat by lia; reflexivity.
Qed.

Lemma later_rows_look_back_witness :
  fresh_names ramp_frame = true /\
  complete (filtered ramp_frame) = true /\
  In ("OT"%string, col_values "OT" (columns (scaled ramp_frame))) (columns (scaled ramp_frame)) /\
  (7 < length (col_values "OT" (columns (scaled ramp_frame))))%nat /\
  ((1 <= 7)%nat ->
   nth_error (col_values (lag1_name "OT") (columns (preprocess sqrt_fixed ramp_frame))) 7
   = nth_error (col_values "OT" (columns (scaled ramp_frame))) (7 - 1)) /\
  ((4 <= 7)%nat ->
   nth_error (col_values (rolling_mean_name "OT") (columns (preprocess sqrt_fixed ramp_frame))) 7
   = Some (Some (mean (present (firstn 5 (skipn (7 - 4)
                                           (col_values "OT" (columns (scaled ramp_frame)))))))) /\
   nth_error (col_values (rolling_std_name "OT") (columns (preprocess sqrt_fixed ramp_frame))) 7
   = Some (Some (sqrt_fixed
                   (var (present (firstn 5 (skipn (7 - 4)
                                              (col_values "OT" (columns (scaled ramp_frame)))))))))).
Proof.
  split; [vm_compute; reflexivity | ].
  split; [vm_compute; reflexivity | ].
  split; [vm_compute; left; reflexivity | ].
  split; [vm_compute; lia | ].
  apply (later_rows_look_back sqrt_fixed ramp_frame "OT");
    [vm_compute; reflexivity | vm_compute; reflexivity
     | vm_compute; left; reflexivity | vm_compute; lia].
Defined.




(* ------------------------------------------------------------------ *)
(** * The rolling variance *)

Lemma Qsum_map_nonneg {A : Type} (f : A -> Q) (l : list A) :
  (forall y, In y l -> (0 <= f y)%Q) -> (0 <= Qsum (map f l))%Q.
Proof.
  unfold Qsum. induction l as [ | x l IH]; intros H; cbn [map fold_right]; [apply Qle_refl | ].
  pose proof (H x (or_introl eq_refl)).
  pose proof (IH (fun y Hy => H y (or_intror Hy))). lra.
Qed.

Lemma Qsum_map_zero {A : Type} (f : A -> Q) (l : list A) :
  (forall y, In y l -> (0 <= f y)%Q) ->
  (Qsum (map f l) == 0)%Q -> forall y, In y l -> (f y == 0)%Q.
Proof.
  induction l as [ | x l IH]; intros H Hz y Hy; [destruct Hy | ].
  pose proof (H x (or_introl eq_refl)) as Hx.
  pose proof (Qsum_map_nonneg f l (fun y Hy => H y (or_intror Hy))) as Hl.
  unfold Qsum in *. cbn [map fold_right] in Hz.
  destruct Hy as [<- | Hy]; [lra | ].
  apply IH; [intros z Hin; apply H; right; exact Hin | lra | exact Hy].
Qed.

Lemma Qsum_constant (a : Q) (l : list Q) :
  (forall y, In y l -> (y == a)%Q) -> (Qsum l == inject_Z (Z.of_nat (length l)) * a)%Q.
Proof.
  unfold Qsum. induction l as [ | x l IH]; intros H.
  - cbn. ring.
  - cbn [fold_right length]. rewrite IH by (intros y Hy; apply H; right; exact Hy).
    rewrite (H x (or_introl eq_refl)), Nat2Z.inj_succ. unfold Z.succ.
    rewrite inject_Z_plus. change (inject_Z 1) with 1%Q. ring.
Qed.

Lemma var_sign (l : list Q) :
  (2 <= length l)%nat ->
  (0 <= var l)%Q /\
  ((var l == 0)%Q <-> forall y z, In y l -> In z l -> (y == z)%Q).
Proof.
  intros Hlen. unfold var.
  set (f := fun x : Q => ((x - mean l) * (x - mean l))%Q).
  assert (Hf : forall y, In y l -> (0 <= f y)%Q) by (intros y _; unfold f; apply square_nonneg).
  pose proof (Qsum_map_nonneg f l Hf) as Hs.
  assert (Hd : (0 < inject_Z (Z.of_nat (length l) - 1))%Q)
    by (change 0%Q with (inject_Z 0); rewrite <- Zlt_Qlt; lia).
  pose proof (Qinv_lt_0_compat _ Hd) as Hi.
  set (S := Qsum (map f l)) in *. set (d := inject_Z (Z.of_nat (length l) - 1)) in *.
  split; [unfold Qdiv; nra | ].
  split.
  - intros Hz y z Hy Hz'.
    assert (HS : (S == 0)%Q) by (unfold Qdiv in Hz; nra).
    pose proof (Qsum_map_zero f l Hf HS y Hy) as Ey.
    pose proof (Qsum_map_zero f l Hf HS z Hz') as Ez.
    unfold f in Ey, Ez. apply square_zero in Ey. apply square_zero in Ez. lra.
  - intros Hall.
    destruct l as [ | a l']; [cbn in Hlen; lia | ].
    assert (Ha : forall y, In y (a :: l') -> (y == a)%Q)
      by (intros y Hy; apply Hall; [exact Hy | left; reflexivity]).
    assert (Hm : (mean (a :: l') == a)%Q).
    { unfold mean. rewrite (Qsum_constant a _ Ha).
      set (n := inject_Z (Z.of_nat (length (a :: l')))).
      assert (Hn : ~ (n == 0)%Q).
      { unfold n. intros H. unfold Qeq in H. cbn [Qnum Qden inject_Z] in H. lia. }
      unfold Qdiv. rewrite (Qmult_comm n a), <- Qmult_assoc, Qmult_inv_r by exact Hn. ring. }
    assert (HS : (S == 0)%Q).
    { subst S. unfold Qsum. clear Hs.
      assert (G : forall t, (forall y, In y t -> (y == a)%Q) ->
                    (fold_right Qplus 0 (map f t) == 0)%Q).
      { induction t as [ | x t IH]; intros Ht; [reflexivity | ].
        cbn [map fold_right]. rewrite IH by (intros y Hy; apply Ht; right; exact Hy).
        unfold f. rewrite Hm, (Ht x (or_introl eq_refl)). ring. }
      apply G, Ha. }
    unfold Qdiv. rewrite HS. ring.
Qed.

(** X18. What [rolling(window=5).std()] takes the root of: a cell of the
    rolling variance is defined only from row 4 on and only when the five
    rows of its window are all present; it is then the sample variance of
    these five values, it is never negative, and it is zero exactly when
    the five values are equal. *)
Theorem rolling_variance_sign (x : column) (i : nat) (v : Q) :
  nth_error (rolling window var x) i = Some (Some v) ->
  (4 <= i < length x)%nat /\
  exists l,
    all_present (firstn 5 (skipn (i - 4) x)) = Some l /\ length l = 5%nat /\
    v = var l /\ (0 <= v)%Q /\
    ((v == 0)%Q <-> forall y z, In y l -> In z l -> (y == z)%Q).
Proof.
  intros H.
  assert (Hi : (i < length x)%nat).
  { rewrite <- (rolling_length window var x). apply nth_error_Some. congruence. }
  destruct (Nat.ltb_spec (i + 1) window) as [Hearly | Hlate].
  { rewrite rolling_nth_early in H by assumption. discriminate. }
  unfold window in Hlate. split; [lia | ].
  rewrite rolling_nth in H by (unfold window; lia).
  unfold window in H. replace (i + 1 - 5)%nat with (i - 4)%nat in H by lia.
  destruct (all_present (firstn 5 (skipn (i - 4) x))) as [l | ] eqn:E; [ | discriminate].
  injection H as <-. exists l.
  assert (Hl : length l = 5%nat).
  { apply all_present_length in E. rewrite E, length_firstn, length_skipn. lia. }
  split; [reflexivity | split; [exact Hl | split; [reflexivity | ]]].
  apply var_sign. lia.
Qed.

Lemma rolling_variance_sign_witness :
  nth_error (rolling window var (values [3; 3; 3; 3; 3; 4])) 4 = Some (Some (var [3; 3; 3; 3; 3]%Q)) /\
  (4 <= 4 < length (values [3; 3; 3; 3; 3; 4]%Z))%nat /\
  exists l,
    all_present (firstn 5 (skipn (4 - 4) (values [3; 3; 3; 3; 3; 4]))) = Some l /\
    length l = 5%nat /\
    var [3; 3; 3; 3; 3]%Q = var l /\ (0 <= var [3; 3; 3; 3; 3]%Q)%Q /\
    ((var [3; 3; 3; 3; 3]%Q == 0)%Q <-> forall y z, In y l -> In z l -> (y == z)%Q).
Proof.
  assert (H : nth_error (rolling window var (values [3; 3; 3; 3; 3; 4])) 4
              = Some (Some (var [3; 3; 3; 3; 3]%Q))) by reflexivity.
  split; [exact H | ].
  exact (rolling_variance_sign _ _ _ H).
Defined.

(* ------------------------------------------------------------------ *)
(** * Reading: the concatenation of the files *)

Lemma add_new_fresh (seen l : list string) :
  NoDup (seen ++ l) -> add_new seen l = (seen ++ l)%list.
Proof.
  revert seen; induction l as [ | x l IH]; intros seen Hnd; cbn [add_new].
  - rewrite app_nil_r. reflexivity.
  - destruct (existsb (String.eqb x) seen) eqn:E.
    + exfalso. apply existsb_eqb_In in E.
      apply NoDup_remove_2 in Hnd. apply Hnd. apply in_or_app. left. exact E.
    + rewrite IH; rewrite <- app_assoc; [reflexivity | exact Hnd].
Qed.

Lemma add_new_In (seen l : list string) (x : string) :
  In x (add_new seen l) <-> In x seen \/ In x l.
Proof.
  revert seen; induction l as [ | y l IH]; intros seen; cbn [add_new In]; [tauto | ].
  destruct (existsb (String.eqb y) seen) eqn:E; rewrite IH.
  - apply existsb_eqb_In in E. split; [tauto | ].
    intros [H | [<- | H]]; tauto.
  - rewrite in_app_iff. cbn [In]. tauto.
Qed.

Lemma union_names_In (dfs : list DataFrame) (x : string) :
  In x (union_names dfs) <-> exists df, In df dfs /\ In x (names (columns df)).
Proof.
  unfold union_names.
  assert (G : forall seen,
            In x (fold_left (fun seen df => add_new seen (names (columns df))) dfs seen)
            <-> In x seen \/ exists df, In df dfs /\ In x (names (columns df))).
  { induction dfs as [ | d dfs IH]; intros seen; cbn [fold_left].
    - split; [tauto | ]. intros [H | (df & [] & _)]. exact H.
    - rewrite IH, add_new_In. split.
      + intros [[H | H] | (df & Hin & H)]; [tauto | right | right].
        * exists d. split; [left; reflexivity | exact H].
        * exists df. split; [right; exact Hin | exact H].
      + intros [H | (df & [<- | Hin] & H)]; [tauto | tauto | ].
        right. exists df. tauto. }
  rewrite G. cbn [In]. tauto.
Qed.

Lemma column_or_nan_length (name : string) (df : DataFrame) :
  rectangular df = true -> length (column_or_nan name df) = length (dates df).
Proof.
  intros Hr. unfold column_or_nan.
  destruct (get_column name (columns df)) as [c | ] eqn:E.
  - apply get_column_some_In in E. rewrite rectangular_spec in Hr. exact (Hr _ E).
  - apply repeat_length.
Qed.

Lemma flat_map_length_sum {A B C : Type} (f : A -> list B) (g : A -> list C) (l : list A) :
  (forall a, In a l -> length (f a) = length (g a)) ->
  length (flat_map f l) = length (flat_map g l).
Proof.
  induction l as [ | a l IH]; intros H; cbn [flat_map]; [reflexivity | ].
  rewrite !length_app, (H a (or_introl eq_refl)), IH; [reflexivity | ].
  intros b Hb. apply H. right. exact Hb.
Qed.

(** X19. The table the script starts from.  Without any file the
    concatenation is an error; with one file, the case of the script's
    pattern, it is that file's table unchanged. *)
Theorem concat_single_file (df : DataFrame) :
  distinct (names (columns df)) = true ->
  pd_concat [] = None /\ pd_concat [df] = Some df.
Proof.
  intros Hd. split; [reflexivity | ].
  apply distinct_NoDup in Hd.
  unfold pd_concat, union_names. cbn [fold_left flat_map].
  rewrite (add_new_fresh [] _ Hd). cbn [app]. rewrite app_nil_r.
  destruct df as [d cols]. cbn [dates columns] in *. f_equal. f_equal.
  unfold names. rewrite map_map. rewrite <- (map_id cols) at 2.
  apply map_ext_in. intros [n c] Hin. cbn [fst]. rewrite app_nil_r.
  unfold column_or_nan. cbn [columns].
  rewrite (get_column_In n c cols Hd Hin). reflexivity.
Qed.

Lemma concat_single_file_witness :
  distinct (names (columns gap_frame)) = true /\
  pd_concat [] = None /\ pd_concat [gap_frame] = Some gap_frame.
Proof.
  split; [reflexivity | ].
  apply (concat_single_file gap_frame). reflexivity.
Defined.

(** X20. With at least one file the concatenation has the rows of all the
    files, in the order of the list, and a column for every name that
    occurs in some file; a file without a column contributes missing cells
    to it, so that rectangular files give a rectangular table. *)
Theorem concat_rows (dataframes : list DataFrame) :
  dataframes <> [] ->
  exists dataset,
    pd_concat dataframes = Some dataset /\
    dates dataset = flat_map dates dataframes /\
    len dataset = fold_right Z.add 0 (map len dataframes) /\
    (forall name, In name (names (columns dataset))
                  <-> exists df, In df dataframes /\ In name (names (columns df))) /\
    (forall name c, In (name, c) (columns dataset) ->
                    c = flat_map (column_or_nan name) dataframes) /\
    (forallb rectangular dataframes = true -> rectangular dataset = true).
Proof.
  intros Hne. destruct dataframes as [ | d0 rest]; [congruence | ].
  set (dfs := d0 :: rest). eexists. split; [reflexivity | ].
  cbn [dates columns]. split; [reflexivity | split; [ | split; [ | split]]].
  - unfold len. cbn [dates]. generalize dfs. intros l.
    induction l as [ | d l IH]; [reflexivity | ].
    cbn [flat_map map fold_right]. rewrite length_app, Nat2Z.inj_add, IH. reflexivity.
  - intros name. unfold names. rewrite map_map. cbn [fst]. rewrite map_id.
    apply union_names_In.
  - intros name c Hin. apply in_map_iff in Hin. destruct Hin as (n & Heq & _).
    injection Heq as <- <-. reflexivity.
  - intros Hall. rewrite forallb_forall in Hall.
    apply rectangular_spec. intros nc Hin. cbn [columns dates] in *.
    apply in_map_iff in Hin. destruct Hin as (n & <- & _). cbn [snd].
    apply flat_map_length_sum. intros df Hdf. apply column_or_nan_length, Hall, Hdf.
Qed.

Lemma concat_rows_witness :
  [flat_frame; gap_frame] <> [] /\
  exists dataset,
    pd_concat [flat_frame; gap_frame] = Some dataset /\
    dates dataset = flat_map dates [flat_frame; gap_frame] /\
    len dataset = fold_right Z.add 0 (map len [flat_frame; gap_frame]) /\
    (forall name, In name (names (columns dataset))
                  <-> exists df, In df [flat_frame; gap_frame] /\ In name (names (columns df))) /\
    (forall name c, In (name, c) (columns dataset) ->
                    c = flat_map (column_or_nan name) [flat_frame; gap_frame]) /\
    (forallb rectangular [flat_frame; gap_frame] = true -> rectangular dataset = true).
Proof.
  split; [discriminate | ].
  apply (concat_rows [flat_frame; gap_frame]). discriminate.
Defined.
